(** * pagination-js: the page window of [usePagination]

    A shallow embedding of [src/pagination.js] and the properties of its
    three closures [calculatePages], [calculatePageClick] and
    [updateTotalPages].

    Numbers are the integers of the page arithmetic, modelled in [Z]:
    page counts and page indices of the safe-integer range, on which the
    doubles of the JavaScript engine are exact.  On such operands, with
    [maxPagesShown >= 1], the one result that can leave this range is the
    sum [currentPage + lastPage] of [calculatePageClick]; it is rounded as
    the engine rounds it.
    A slot of the window is a JavaScript value: a number, [NaN], a string
    (the ellipsis marker ["..."]) or [undefined]. *)

From stdpp Require Import base numbers list list_numbers option strings pretty gmap.

Local Open Scope Z_scope.

(** ** JavaScript values and the operators the source applies to them *)

Inductive value : Type :=
  | VNum (n : Z)
  | VNaN
  | VStr (s : string)
  | VUndef.

#[global] Instance value_eq_dec : EqDecision value.
Proof. solve_decision. Defined.

#[global] Instance value_inhabited : Inhabited value := populate VUndef.

(** The marker the source writes into the window. *)
Definition ELLIPSIS : value := VStr "...".

(** [ToNumber]; [None] stands for [NaN].  The strings that occur in a window
    all start with the marker ["..."], which is not a numeric literal. *)
Definition to_number (v : value) : option Z :=
  match v with
  | VNum n => Some n
  | VNaN | VStr _ | VUndef => None
  end.

Definition of_number (o : option Z) : value :=
  match o with
  | Some n => VNum n
  | None => VNaN
  end.

(** [ToString]. *)
Definition to_string (v : value) : string :=
  match v with
  | VNum n => pretty n
  | VNaN => "NaN"
  | VStr s => s
  | VUndef => "undefined"
  end.

(** [typeof v === "number"]: [NaN] is a number too. *)
Definition is_number (v : value) : bool :=
  match v with
  | VNum _ | VNaN => true
  | VStr _ | VUndef => false
  end.

(** [a - b] *)
Definition js_sub (a b : value) : value :=
  of_number (x ← to_number a; y ← to_number b; Some (x - y)).

(** [a + b]: concatenation as soon as one side is a string. *)
Definition js_add (a b : value) : value :=
  match a, b with
  | VStr s, _ => VStr (s +:+ to_string b)
  | _, VStr s => VStr (to_string a +:+ s)
  | _, _ => of_number (x ← to_number a; y ← to_number b; Some (x + y))
  end.

(** [a < b] and [a > b]: false as soon as one side is [NaN]. *)
Definition js_lt (a b : value) : bool :=
  match to_number a, to_number b with
  | Some x, Some y => bool_decide (x < y)
  | _, _ => false
  end.

Definition js_gt (a b : value) : bool := js_lt b a.

(** [a === b] and [a !== b] *)
Definition js_strict_eq (a b : value) : bool :=
  match a, b with
  | VNum x, VNum y => bool_decide (x = y)
  | VStr s, VStr t => bool_decide (s = t)
  | VUndef, VUndef => true
  | _, _ => false
  end.

Definition js_strict_ne (a b : value) : bool := negb (js_strict_eq a b).

(** [Math.floor(x / 2)] and [Math.ceil(x / 2)] on an integer [x]. *)
Definition floor_half (x : Z) : Z := x `div` 2.
Definition ceil_half (x : Z) : Z := - ((- x) `div` 2).

(** ** Arrays

    An array is its elements together with the properties stored under
    keys that are not array indices: [a[-1] = v] creates the property
    ["-1"] and leaves the elements and the length alone. *)

Record array : Type := Array {
  elems : list value;
  props : gmap Z value
}.

Definition arr_lit (l : list value) : array := Array l ∅.

Definition arr_length (a : array) : Z := Z.of_nat (length (elems a)).

(** [a[i]]: [undefined] outside the elements and for a missing property. *)
Definition arr_get (a : array) (i : Z) : value :=
  if bool_decide (0 ≤ i)
  then default VUndef (elems a !! Z.to_nat i)
  else default VUndef (props a !! i).

(** [a[i] = v]: overwrites inside the elements, extends the array when [i]
    is at or past the end (the holes read as [undefined]), sets a property
    when [i] is negative. *)
Definition arr_set (a : array) (i : Z) (v : value) : array :=
  if bool_decide (0 ≤ i) then
    let k := Z.to_nat i in
    if bool_decide (k < length (elems a))%nat
    then Array (<[k:=v]> (elems a)) (props a)
    else Array (elems a ++ replicate (k - length (elems a))%nat VUndef ++ [v])
               (props a)
  else Array (elems a) (<[i:=v]> (props a)).

(** The relative index of [Array.prototype.slice]. *)
Definition rel_index (len k : Z) : Z :=
  if bool_decide (k < 0) then Z.max (len + k) 0 else Z.min k len.

(** [a.slice(s, e)] *)
Definition arr_slice (a : array) (s e : Z) : list value :=
  let from := rel_index (arr_length a) s in
  let to := rel_index (arr_length a) e in
  take (Z.to_nat (to - from)) (drop (Z.to_nat from) (elems a)).

(** [Array.from({ length: len }, (_, i) => f(i))]: a negative length is
    an empty array. *)
Definition array_from (len : Z) (f : Z → Z) : list Z := f <$> seqZ 0 len.

(** [l.sort(cmp)]: a stable sort by the comparator, as an insertion sort. *)
Fixpoint sort_insert (cmp : Z → Z → Z) (x : Z) (l : list Z) : list Z :=
  match l with
  | [] => [x]
  | y :: l' =>
      if bool_decide (0 < cmp x y) then y :: sort_insert cmp x l' else x :: l
  end.

Definition array_sort (cmp : Z → Z → Z) (l : list Z) : list Z :=
  foldr (sort_insert cmp) [] l.

(** ** The options and the state of the closures *)

Record ellipsisOptions : Type := EllipsisOptions {
  opt_enableEllipsis : option bool;
  opt_ellipsisCountsAsPage : option bool;
  opt_showEllipsisIfOnlyOnePage : option bool;
  opt_enableEllipsisClick : option bool;
  opt_enableFirstLast : option bool
}.

Record paginationOptions : Type := PaginationOptions {
  opt_totalPages : Z;
  opt_maxPagesShown : option Z;
  opt_ellipsisOptions : option ellipsisOptions
}.

(** The variables of [usePagination] that its closures share: [totalPages]
    and [lastPage] are reassigned by [updateTotalPages], the others are
    constants. *)
Record pagination : Type := Pagination {
  totalPages : Z;
  lastPage : Z;
  maxPagesShown : Z;
  middleIndex : Z;
  enableEllipsis : bool;
  ellipsisCountsAsPage : bool;
  showEllipsisIfOnlyOnePage : bool;
  enableEllipsisClick : bool;
  enableFirstLast : bool
}.

(** [o?.ellipsisOptions?.field ?? true] *)
Definition ellipsis_option (o : paginationOptions)
    (field : ellipsisOptions → option bool) : bool :=
  default true (opt_ellipsisOptions o ≫= field).

Definition usePagination (o : paginationOptions) : pagination :=
  let totalPages := Z.max (opt_totalPages o) 1 in
  let lastPage := totalPages - 1 in
  let maxPagesShown := default 7 (opt_maxPagesShown o) in
  let middleIndex := floor_half maxPagesShown in
  {| totalPages := totalPages;
     lastPage := lastPage;
     maxPagesShown := maxPagesShown;
     middleIndex := middleIndex;
     enableEllipsis := ellipsis_option o opt_enableEllipsis;
     ellipsisCountsAsPage := ellipsis_option o opt_ellipsisCountsAsPage;
     showEllipsisIfOnlyOnePage := ellipsis_option o opt_showEllipsisIfOnlyOnePage;
     enableEllipsisClick := ellipsis_option o opt_enableEllipsisClick;
     enableFirstLast := ellipsis_option o opt_enableFirstLast |}.

Definition updateTotalPages (newTotalPages : Z) (p : pagination) : pagination :=
  let totalPages := Z.max newTotalPages 1 in
  let lastPage := totalPages - 1 in
  {| totalPages := totalPages;
     lastPage := lastPage;
     maxPagesShown := maxPagesShown p;
     middleIndex := middleIndex p;
     enableEllipsis := enableEllipsis p;
     ellipsisCountsAsPage := ellipsisCountsAsPage p;
     showEllipsisIfOnlyOnePage := showEllipsisIfOnlyOnePage p;
     enableEllipsisClick := enableEllipsisClick p;
     enableFirstLast := enableFirstLast p |}.

(** The states a caller can reach: the one [usePagination] builds, and any
    number of [updateTotalPages] calls after it. *)
Inductive reachable (o : paginationOptions) : pagination → Prop :=
  | reach_init : reachable o (usePagination o)
  | reach_update n p : reachable o p → reachable o (updateTotalPages n p).

(** ** [calculatePages] *)

(** Lines 48-69: the window before the ellipsis and first/last features. *)
Definition basePages (p : pagination) (currentPage : Z) : list Z :=
  if bool_decide (currentPage < middleIndex p) then
    array_from (Z.min (maxPagesShown p) (totalPages p)) (λ i, i)
  else if bool_decide (currentPage > lastPage p - middleIndex p) then
    array_sort (λ a b, a - b)
      (array_from (Z.min (maxPagesShown p) (totalPages p)) (λ i, lastPage p - i))
  else
    array_from (Z.min (maxPagesShown p) (totalPages p))
      (λ i, currentPage - middleIndex p + i).

(** Lines 75-93: the front ellipsis. *)
Definition frontEllipsis (p : pagination) (middlePage : value) (pages : array)
    : array :=
  if js_gt (js_sub middlePage (VNum (middleIndex p))) (VNum 0) then
    if ellipsisCountsAsPage p then
      arr_set pages (if enableFirstLast p then 1 else 0) ELLIPSIS
    else
      let ellipsisValue :=
        if showEllipsisIfOnlyOnePage p
           && js_strict_eq (js_sub middlePage (VNum (middleIndex p))) (VNum 1)
        then js_sub (arr_get pages 1) (VNum 1)
        else ELLIPSIS in
      if enableFirstLast p then
        arr_lit (arr_get pages 0 :: ellipsisValue
                 :: arr_slice pages 1 (arr_length pages))
      else
        arr_lit (ellipsisValue :: elems pages)
  else pages.

(** Lines 95-118: the back ellipsis. *)
Definition backEllipsis (p : pagination) (middlePage : value) (pages : array)
    : array :=
  if js_lt (js_add middlePage (VNum (middleIndex p))) (VNum (lastPage p)) then
    if ellipsisCountsAsPage p then
      arr_set pages (arr_length pages - (if enableFirstLast p then 2 else 1))
        ELLIPSIS
    else
      let ellipsisValue :=
        if showEllipsisIfOnlyOnePage p
           && js_strict_eq (js_add middlePage (VNum (middleIndex p)))
                (VNum (lastPage p - 1))
        then js_add (arr_get pages (arr_length pages - 2)) (VNum 1)
        else ELLIPSIS in
      if enableFirstLast p then
        arr_lit (arr_slice pages 0 (arr_length pages - 1)
                 ++ [ellipsisValue; arr_get pages (arr_length pages - 1)])
      else
        arr_lit (elems pages ++ [ellipsisValue])
  else pages.

(** Lines 72-119: the ellipsis feature. *)
Definition ellipsisFeature (p : pagination) (pages : array) : array :=
  if enableEllipsis p then
    let middlePage := arr_get pages (floor_half (arr_length pages)) in
    let pages := frontEllipsis p middlePage pages in
    backEllipsis p middlePage pages
  else pages.

(** Lines 122-129: the first/last feature. *)
Definition firstLastFeature (p : pagination) (pages : array) : array :=
  if enableFirstLast p then
    let pages :=
      if js_strict_ne (arr_get pages 0) (VNum 0)
      then arr_set pages 0 (VNum 0) else pages in
    if js_strict_ne (arr_get pages (arr_length pages - 1)) (VNum (lastPage p))
    then arr_set pages (arr_length pages - 1) (VNum (lastPage p))
    else pages
  else pages.

Definition calculatePages (p : pagination) (pageIndex : Z) : array :=
  let currentPage := pageIndex in
  let pages := arr_lit (VNum <$> basePages p currentPage) in
  let pages := ellipsisFeature p pages in
  firstLastFeature p pages.

(** ** [calculatePageClick] *)

(** [x + y] on two integers of the safe range.  Up to [2^53] in magnitude
    the sum is a double and is exact.  Above, up to [2^54], the doubles are
    the even integers: an even sum is exact, and an odd sum lies half-way
    between two doubles and goes to the one with the even significand,
    which is the multiple of 4.  The sum of two safe integers never exceeds
    [2^54] in magnitude. *)
Definition double_sum (x y : Z) : Z :=
  let s := x + y in
  if bool_decide (Z.abs s ≤ 2 ^ 53) then s
  else if Z.even s then s
  else if bool_decide ((s + 1) `mod` 4 = 0) then s + 1
  else s - 1.

(** A call that runs off the end of the function returns [undefined].
    [currentPage / 2] and the half of the rounded sum are exact in doubles,
    and so are their floor and ceiling. *)
Definition calculatePageClick (p : pagination)
    (currentPage : Z) (clickedPage : value) (buttonIndex : Z) : value :=
  if is_number clickedPage then clickedPage
  else if enableEllipsisClick p then
    if bool_decide (buttonIndex < middleIndex p)
    then VNum (floor_half currentPage)
    else VNum (ceil_half (double_sum currentPage (lastPage p)))
  else VUndef.

(** Options with every field given, for the examples. *)
Definition options (total maxShown : Z)
    (ellipsis counts showOne click firstLast : bool) : paginationOptions :=
  PaginationOptions total (Some maxShown)
    (Some (EllipsisOptions (Some ellipsis) (Some counts) (Some showOne)
             (Some click) (Some firstLast))).

(** ** Notions used by the statements *)

(** What every reachable state satisfies: at least one page, [lastPage] in
    step with [totalPages], [middleIndex] half of [maxPagesShown]. *)
Definition state_ok (p : pagination) : Prop :=
  1 ≤ totalPages p
  ∧ lastPage p = totalPages p - 1
  ∧ middleIndex p = maxPagesShown p `div` 2.

(** The number of slots of the base window. *)
Definition windowLen (p : pagination) : Z :=
  Z.min (maxPagesShown p) (totalPages p).

(** The first page of the base window, branch by branch. *)
Definition windowStart (p : pagination) (currentPage : Z) : Z :=
  if bool_decide (currentPage < middleIndex p) then 0
  else if bool_decide (currentPage > lastPage p - middleIndex p)
       then lastPage p - windowLen p + 1
       else currentPage - middleIndex p.

(** The options [o] with another [totalPages]. *)
Definition with_total (o : paginationOptions) (n : Z) : paginationOptions :=
  PaginationOptions n (opt_maxPagesShown o) (opt_ellipsisOptions o).

(** A run of [updateTotalPages] calls, first to last. *)
Definition updates (ns : list Z) (p : pagination) : pagination :=
  foldl (λ p n, updateTotalPages n p) p ns.

(** A slot that holds a page of the range [[0, lastPage]]. *)
Definition page_slot (p : pagination) (v : value) : Prop :=
  ∃ n, v = VNum n ∧ 0 ≤ n ≤ lastPage p.

(** A slot a renderer can show: the marker, or a page of the range. *)
Definition slot_ok (p : pagination) (v : value) : Prop :=
  v = ELLIPSIS ∨ page_slot p v.

(** The pages between the first and the last slot of a window that was
    built from the run starting at page [s], after [d] slots were inserted
    in front: the page in slot [i] is [s + i - d], and it lies strictly
    between page 0 and [lastPage]. *)
Definition interior_ok (p : pagination) (s : Z) (d : nat) (l : list value)
    : Prop :=
  ∀ (i : nat) v,
    l !! i = Some (VNum v) → (0 < i)%nat → (S i < length l)%nat →
    v = s + Z.of_nat i - Z.of_nat d ∧ 0 < v < lastPage p.

(** Names the value an ellipsis inserts: the marker or the hidden page. *)
Ltac name_ellipsis_value ev :=
  match goal with
  | |- context [if ?b then ?x else ELLIPSIS] =>
      set (ev := if b then x else ELLIPSIS)
  end.

(** * Properties *)

(** ** The embedding on traces of the source done by hand *)

(** Nine pages, five slots, the ellipsis not counted: both markers are
    inserted and the window has seven slots. *)
Example trace_inserted_markers :
  elems (calculatePages
           (usePagination (options 9 5 true false true true true)) 4)
  = [VNum 0; ELLIPSIS; VNum 3; VNum 4; VNum 5; ELLIPSIS; VNum 8].
Proof. reflexivity. Qed.

(** Seven pages, five slots, the ellipsis not counted: one page is hidden on
    each side of [[1 .. 5]] and is shown as a number. *)
Example trace_single_hidden_page :
  elems (calculatePages
           (usePagination (options 7 5 true false true true true)) 3)
  = [VNum 0; VNum 1; VNum 2; VNum 3; VNum 4; VNum 5; VNum 6].
Proof. reflexivity. Qed.

(** The first/last feature off: the markers take the outer slots. *)
Example trace_no_first_last :
  elems (calculatePages
           (usePagination (options 20 7 true true true true false)) 10)
  = [ELLIPSIS; VNum 8; VNum 9; VNum 10; VNum 11; VNum 12; ELLIPSIS].
Proof. reflexivity. Qed.

(** One slot, the ellipsis not counted, first/last off: [pages[length - 2]]
    is the front marker, and ["..." + 1] is the string ["...1"]. *)
Example trace_marker_plus_one :
  elems (calculatePages
           (usePagination (options 4 1 true false true true false)) 2)
  = [ELLIPSIS; VNum 2; VStr "...1"].
Proof. reflexivity. Qed.

(** One slot, the ellipsis counted: [pages[-1] = "..."] sets a property and
    the single slot is then overwritten with [lastPage]. *)
Example trace_negative_index :
  calculatePages (usePagination (options 3 1 true true true true true)) 0
  = Array [VNum 2] {[ (-1) := ELLIPSIS ]}.
Proof. reflexivity. Qed.

(** The current page near the end: the sorted descending run. *)
Example trace_anchored_at_end :
  basePages (usePagination (options 20 7 true true true true true)) 18
  = [13; 14; 15; 16; 17; 18; 19].
Proof. reflexivity. Qed.

(** The sum of the back click beyond [2^53]: with [2^53] pages on page
    [2^53 - 2], the odd sum [2^54 - 3] is rounded to [2^54 - 4] and the
    click returns the current page; an even sum is exact. *)
Example trace_rounded_sum :
  calculatePageClick (usePagination (PaginationOptions (2 ^ 53) None None))
    (2 ^ 53 - 2) ELLIPSIS 5 = VNum (2 ^ 53 - 2)
  ∧ calculatePageClick (usePagination (PaginationOptions (2 ^ 53) None None))
      (2 ^ 53 - 3) ELLIPSIS 5 = VNum (2 ^ 53 - 2)
  ∧ double_sum (2 ^ 53) 1 = 2 ^ 53
  ∧ double_sum (2 ^ 53) 3 = 2 ^ 53 + 4
  ∧ double_sum (- 2 ^ 53) (- 1) = - 2 ^ 53.
Proof. by vm_compute. Qed.

(** ** The state invariant *)

Lemma usePagination_ok o : state_ok (usePagination o).
Proof. unfold state_ok, usePagination, floor_half; simpl. lia. Qed.

Lemma updateTotalPages_ok n p : state_ok p → state_ok (updateTotalPages n p).
Proof. unfold state_ok, updateTotalPages; simpl. lia. Qed.

Lemma reachable_ok o p : reachable o p → state_ok p.
Proof.
  induction 1 as [|n p _ IH].
  - apply usePagination_ok.
  - by apply updateTotalPages_ok.
Qed.

(** [updateTotalPages] leaves the configuration alone. *)
Lemma reachable_config o p :
  reachable o p →
  maxPagesShown p = default 7 (opt_maxPagesShown o)
  ∧ enableEllipsis p = ellipsis_option o opt_enableEllipsis
  ∧ ellipsisCountsAsPage p = ellipsis_option o opt_ellipsisCountsAsPage
  ∧ showEllipsisIfOnlyOnePage p = ellipsis_option o opt_showEllipsisIfOnlyOnePage
  ∧ enableEllipsisClick p = ellipsis_option o opt_enableEllipsisClick
  ∧ enableFirstLast p = ellipsis_option o opt_enableFirstLast.
Proof. induction 1; simpl; [repeat split | assumption]. Qed.

Lemma floor_half_spec x : 2 * floor_half x ≤ x < 2 * floor_half x + 2.
Proof. unfold floor_half. pose proof (Z.div_mod x 2). pose proof (Z.mod_pos_bound x 2). lia. Qed.

Lemma ceil_half_spec x : x ≤ 2 * ceil_half x < x + 2.
Proof.
  unfold ceil_half. pose proof (Z.div_mod (- x) 2).
  pose proof (Z.mod_pos_bound (- x) 2). lia.
Qed.

(** The rounded sum is the sum, or, for an odd sum beyond [2^53], one of
    its two even neighbours. *)
Lemma double_sum_cases x y :
  double_sum x y = x + y
  ∨ (2 ^ 53 < Z.abs (x + y)
     ∧ ∃ k, x + y = 2 * k + 1
            ∧ (double_sum x y = 2 * k ∨ double_sum x y = 2 * k + 2)).
Proof.
  unfold double_sum. case_bool_decide as Hsafe; [by left|].
  destruct (Z.even (x + y)) eqn:Heven; [by left|].
  right. split; [lia|]. exists ((x + y) `div` 2).
  pose proof (Z.div_mod (x + y) 2) as Hdiv.
  pose proof (Zmod_even (x + y)) as Hmod. rewrite Heven in Hmod.
  split; [lia|]. case_bool_decide; lia.
Qed.

Lemma double_sum_exact x y :
  Z.abs (x + y) ≤ 2 ^ 53 → double_sum x y = x + y.
Proof. intros Hsafe. unfold double_sum. by rewrite bool_decide_eq_true_2. Qed.

(** The click on a back ellipsis: the ceiling of half the rounded sum is the
    ceiling of half the sum, or one less when the sum was rounded down. *)
Lemma back_target_cases x y :
  let t := ceil_half (double_sum x y) in
  (x + y ≤ 2 * t < x + y + 2)
  ∨ (2 ^ 53 < Z.abs (x + y) ∧ 2 * t = x + y - 1).
Proof.
  intros t. subst t. pose proof (ceil_half_spec (double_sum x y)) as Hceil.
  destruct (double_sum_cases x y) as [Heq|(Hbig & k & Hk & [Heq|Heq])];
    rewrite Heq in *; [left; lia|right; lia|left; lia].
Qed.

(** ** [updateTotalPages] and the construction *)

(** C8: [updateTotalPages] sets [totalPages] to [max newTotal 1] and
    [lastPage] to [totalPages - 1] for every integer; on [0] and [-5] the
    state ends with one page and last page [0]; [usePagination] clamps the
    [totalPages] of its options the same way.  Both are total functions:
    no input is rejected. *)
Theorem updateTotalPages_clamps :
  (∀ n p,
     totalPages (updateTotalPages n p) = Z.max n 1
     ∧ lastPage (updateTotalPages n p) = totalPages (updateTotalPages n p) - 1
     ∧ 1 ≤ totalPages (updateTotalPages n p))
  ∧ (∀ p,
       totalPages (updateTotalPages 0 p) = 1
       ∧ lastPage (updateTotalPages 0 p) = 0
       ∧ totalPages (updateTotalPages (-5) p) = 1
       ∧ lastPage (updateTotalPages (-5) p) = 0)
  ∧ (∀ o,
       totalPages (usePagination o) = Z.max (opt_totalPages o) 1
       ∧ lastPage (usePagination o) = totalPages (usePagination o) - 1).
Proof. repeat split; simpl; lia. Qed.

(** ** [calculatePageClick] *)

(** C6 fails as stated: the sum [currentPage + lastPage] is computed in
    doubles.  With [2^53 - 2] pages, the default options ([middleIndex] 3),
    the current page [2^53 - 4] and button 3, the sum [2^54 - 7] is rounded
    to [2^54 - 8] and the click on the back ellipsis returns [2^53 - 4],
    the current page itself, where the ceiling of half the sum is
    [2^53 - 3]. *)
Lemma back_click_rounded :
  let p := usePagination (PaginationOptions (2 ^ 53 - 2) None None) in
  let currentPage := 2 ^ 53 - 4 in
  enableEllipsisClick p = true
  ∧ middleIndex p = 3
  ∧ lastPage p = 2 ^ 53 - 3
  ∧ 0 ≤ currentPage ≤ lastPage p
  ∧ calculatePageClick p currentPage ELLIPSIS 3 = VNum (2 ^ 53 - 4)
  ∧ ceil_half (currentPage + lastPage p) = 2 ^ 53 - 3
  ∧ calculatePageClick p currentPage ELLIPSIS 3
    ≠ VNum (ceil_half (currentPage + lastPage p))
  ∧ ¬ (currentPage + lastPage p ≤ 2 * (2 ^ 53 - 4)).
Proof.
  intros p currentPage. repeat (split; [by vm_compute|]). by vm_compute.
Qed.

(** C6, amended: a clicked number comes back unchanged; a clicked ellipsis,
    with [enableEllipsisClick] on, gives [floor (currentPage / 2)] when
    [buttonIndex < middleIndex], and otherwise the ceiling of half the
    rounded sum, which is [ceil ((currentPage + lastPage) / 2)] whenever
    [currentPage + lastPage] is at most [2^53] in magnitude; the floor and
    the ceiling are pinned down by their defining inequalities; with
    [middleIndex = 3], current page 10 and button 0 the result is 5. *)
Theorem calculatePageClick_result p currentPage clicked buttonIndex :
  (∀ n, clicked = VNum n →
        calculatePageClick p currentPage clicked buttonIndex = VNum n)
  ∧ (is_number clicked = false → enableEllipsisClick p = true →
     ∃ target,
       calculatePageClick p currentPage clicked buttonIndex = VNum target
       ∧ (buttonIndex < middleIndex p →
          target = floor_half currentPage
          ∧ 2 * target ≤ currentPage < 2 * target + 2)
       ∧ (¬ buttonIndex < middleIndex p →
          target = ceil_half (double_sum currentPage (lastPage p))
          ∧ (Z.abs (currentPage + lastPage p) ≤ 2 ^ 53 →
             target = ceil_half (currentPage + lastPage p)
             ∧ currentPage + lastPage p ≤ 2 * target
                                        < currentPage + lastPage p + 2)))
  ∧ (is_number clicked = false → enableEllipsisClick p = true →
     middleIndex p = 3 → currentPage = 10 → buttonIndex = 0 →
     calculatePageClick p currentPage clicked buttonIndex = VNum 5).
Proof.
  unfold calculatePageClick. split; [|split].
  - by intros n ->.
  - intros -> ->. case_bool_decide.
    + eexists; split; [done|]. split; [|done].
      intros _. split; [done|]. apply floor_half_spec.
    + eexists; split; [done|]. split; [done|].
      intros _. split; [done|]. intros Hsafe.
      rewrite double_sum_exact by done. split; [done|]. apply ceil_half_spec.
  - intros -> -> -> -> ->. done.
Qed.

Lemma calculatePageClick_result_witness :
  let p := usePagination (PaginationOptions 20 None None) in
  calculatePageClick p 10 (VNum 4) 2 = VNum 4
  ∧ calculatePageClick p 10 ELLIPSIS 0 = VNum 5
  ∧ calculatePageClick p 10 ELLIPSIS 5 = VNum 15.
Proof.
  intros p.
  destruct (calculatePageClick_result p 10 (VNum 4) 2) as (Hnum & _ & _).
  destruct (calculatePageClick_result p 10 ELLIPSIS 0) as (_ & _ & Hfive).
  destruct (calculatePageClick_result p 10 ELLIPSIS 5) as (_ & Hback & _).
  split; [by apply Hnum|]. split; [by apply Hfive|].
  destruct Hback as (t & -> & _ & Ht); [done..|].
  destruct Ht as [_ Ht]; [by vm_compute|].
  destruct Ht as [-> _]; by vm_compute.
Defined.

(** C7: on a clicked value that is not a number, with [enableEllipsisClick]
    off, [calculatePageClick] returns [undefined]; it returns [undefined]
    in no other case; and in every other case it returns a page, be the
    clicked value a page number or a marker: the clicked page itself, or
    the page the ellipsis resolves to. *)
Theorem calculatePageClick_undefined p currentPage clicked buttonIndex :
  (is_number clicked = false → enableEllipsisClick p = false →
   calculatePageClick p currentPage clicked buttonIndex = VUndef)
  ∧ (calculatePageClick p currentPage clicked buttonIndex = VUndef
     ↔ is_number clicked = false ∧ enableEllipsisClick p = false)
  ∧ (∀ n, clicked = VNum n →
          calculatePageClick p currentPage clicked buttonIndex = VNum n)
  ∧ (is_number clicked = false → enableEllipsisClick p = true →
     ∃ page,
       calculatePageClick p currentPage clicked buttonIndex = VNum page)
  ∧ ((∃ n, clicked = VNum n) ∨ is_number clicked = false →
     (∃ page,
        calculatePageClick p currentPage clicked buttonIndex = VNum page)
     ↔ ¬ (is_number clicked = false ∧ enableEllipsisClick p = false)).
Proof.
  unfold calculatePageClick. split; [|split; [|split; [|split]]].
  - by intros -> ->.
  - destruct clicked, (enableEllipsisClick p); simpl;
      try case_bool_decide; split; try done; intros [? ?]; done.
  - by intros n ->.
  - intros -> ->. case_bool_decide; by eexists.
  - intros [[n ->]| ->]; simpl.
    + split; [by intros _ [? _]|]. intros _. by eexists.
    + destruct (enableEllipsisClick p).
      * split; [by intros _ [_ ?]|]. intros _. case_bool_decide; by eexists.
      * split; [by intros [? ?]|]. intros H. by destruct H.
Qed.

Lemma calculatePageClick_undefined_witness :
  let p := usePagination (PaginationOptions 20 None
             (Some (EllipsisOptions None None None (Some false) None))) in
  let q := usePagination (PaginationOptions 20 None None) in
  calculatePageClick p 10 ELLIPSIS 1 = VUndef
  ∧ ∃ page, calculatePageClick q 10 ELLIPSIS 1 = VNum page.
Proof.
  intros p q.
  destruct (calculatePageClick_undefined p 10 ELLIPSIS 1) as (Hoff & _).
  destruct (calculatePageClick_undefined q 10 ELLIPSIS 1)
    as (_ & _ & _ & Hon & _).
  split; [by apply Hoff|by apply Hon].
Defined.

(** C10: with [enableEllipsisClick] on and the current page in
    [[0, lastPage]], the page an ellipsis click resolves to lies in
    [[0, lastPage]] whatever the button index; both candidates,
    [floor (currentPage / 2)] and [ceil ((currentPage + lastPage) / 2)],
    are in that range. *)
Theorem calculatePageClick_in_range o p currentPage clicked buttonIndex :
  reachable o p →
  enableEllipsisClick p = true →
  0 ≤ currentPage ≤ lastPage p →
  is_number clicked = false →
  (∃ target,
     calculatePageClick p currentPage clicked buttonIndex = VNum target
     ∧ 0 ≤ target ≤ lastPage p)
  ∧ 0 ≤ floor_half currentPage ≤ lastPage p
  ∧ 0 ≤ ceil_half (currentPage + lastPage p) ≤ lastPage p.
Proof.
  intros _ Hclick Hcur Hnum.
  pose proof (floor_half_spec currentPage).
  pose proof (ceil_half_spec (currentPage + lastPage p)).
  pose proof (back_target_cases currentPage (lastPage p)) as Hback.
  simpl in Hback.
  split; [|lia].
  unfold calculatePageClick. rewrite Hnum, Hclick.
  case_bool_decide; eexists; (split; [done|lia]).
Qed.

Lemma calculatePageClick_in_range_witness :
  ∃ target,
    calculatePageClick (usePagination (PaginationOptions 20 None None))
      7 ELLIPSIS 5 = VNum target
    ∧ 0 ≤ target ≤ 19.
Proof.
  apply (calculatePageClick_in_range (PaginationOptions 20 None None)
           (usePagination (PaginationOptions 20 None None)) 7 ELLIPSIS 5);
    [constructor|reflexivity|simpl; lia|reflexivity].
Defined.

(** ** The base window *)

Lemma array_from_id len : array_from len (λ i, i) = seqZ 0 len.
Proof. unfold array_from. apply list_fmap_id. Qed.

Lemma array_from_shift len s : array_from len (λ i, s + i) = seqZ s len.
Proof.
  unfold array_from. transitivity (seqZ (s + 0) len).
  - by rewrite <- fmap_add_seqZ.
  - by rewrite Z.add_0_r.
Qed.

(** Inserting an element above all the others appends it. *)
Lemma sort_insert_above x l :
  Forall (λ y, y < x) l → sort_insert (λ a b, a - b) x l = l ++ [x].
Proof.
  induction 1 as [|y l Hy _ IH]; simpl; [done|].
  rewrite bool_decide_eq_true_2 by lia. by rewrite IH.
Qed.

Lemma array_sort_descending_nat last k :
  array_sort (λ a b, a - b) (array_from (Z.of_nat k) (λ i, last - i))
  = seqZ (last - Z.of_nat k + 1) (Z.of_nat k).
Proof.
  revert last. induction k as [|k IH]; intros last; [done|].
  unfold array_sort, array_from in *.
  rewrite seqZ_cons by lia. rewrite fmap_cons. cbn [foldr].
  replace (Z.pred (Z.of_nat (S k))) with (Z.of_nat k) by lia.
  assert ((λ i, last - i) <$> seqZ (Z.succ 0) (Z.of_nat k)
          = (λ i, (last - 1) - i) <$> seqZ 0 (Z.of_nat k)) as ->.
  { replace (Z.succ 0) with (1 + 0) by done.
    rewrite <- (fmap_add_seqZ 1 0), <- list_fmap_compose.
    apply list_fmap_ext. intros _ i _. simpl. lia. }
  rewrite IH, sort_insert_above.
  - rewrite seqZ_S. do 2 f_equal; lia.
  - apply Forall_seqZ. intros; lia.
Qed.

Lemma array_sort_descending last n :
  array_sort (λ a b, a - b) (array_from n (λ i, last - i))
  = seqZ (last - n + 1) n.
Proof.
  destruct (decide (0 ≤ n)) as [Hn|Hn].
  - rewrite <- (Z2Nat.id n) by done. apply array_sort_descending_nat.
  - unfold array_from. by rewrite !seqZ_nil by lia.
Qed.

(** Whatever the state, the base window is the run of [windowLen]
    consecutive pages from [windowStart]. *)
Lemma basePages_seqZ p currentPage :
  basePages p currentPage = seqZ (windowStart p currentPage) (windowLen p).
Proof.
  unfold basePages, windowStart, windowLen. repeat case_bool_decide.
  - apply array_from_id.
  - apply array_sort_descending.
  - apply array_from_shift.
Qed.

Lemma basePages_length p currentPage :
  length (basePages p currentPage) = Z.to_nat (windowLen p).
Proof. by rewrite basePages_seqZ, length_seqZ. Qed.

Lemma half_bounds x : 2 * (x `div` 2) ≤ x < 2 * (x `div` 2) + 2.
Proof. apply floor_half_spec. Qed.

(** C1: in a reachable state with [maxPagesShown >= 1] and the current
    page in [[0, lastPage]], the base window is [min maxPagesShown
    totalPages] consecutive pages in ascending order, [middleIndex] being
    [floor (maxPagesShown / 2)]; it starts at page 0 when [currentPage <
    middleIndex], ends at [lastPage] when [currentPage > lastPage -
    middleIndex], and otherwise has the current page at offset
    [middleIndex]; every page of it lies in [[0, lastPage]] and the current
    page is one of them. *)
Theorem basePages_window o p currentPage :
  reachable o p →
  1 ≤ maxPagesShown p →
  0 ≤ currentPage ≤ lastPage p →
  let len := Z.min (maxPagesShown p) (totalPages p) in
  middleIndex p = maxPagesShown p `div` 2
  ∧ ∃ start,
      basePages p currentPage = seqZ start len
      ∧ length (basePages p currentPage) = Z.to_nat len
      ∧ (currentPage < middleIndex p → start = 0)
      ∧ (currentPage > lastPage p - middleIndex p →
         start + len - 1 = lastPage p)
      ∧ (¬ currentPage < middleIndex p →
         ¬ currentPage > lastPage p - middleIndex p →
         start = currentPage - middleIndex p
         ∧ basePages p currentPage !! Z.to_nat (middleIndex p)
           = Some currentPage)
      ∧ Forall (λ page, 0 ≤ page ≤ lastPage p) (basePages p currentPage)
      ∧ currentPage ∈ basePages p currentPage.
Proof.
  intros Hreach Hmax Hcur len.
  destruct (reachable_ok _ _ Hreach) as (Htot & Hlast & Hmid).
  pose proof (half_bounds (maxPagesShown p)) as Hhalf.
  split; [done|]. exists (windowStart p currentPage).
  rewrite basePages_length, basePages_seqZ. fold (windowLen p) in len.
  assert (len = windowLen p) as Hlen by done. clearbody len. subst len.
  unfold windowStart, windowLen in *.
  split; [done|]. split; [done|]. repeat apply conj.
  - intros ?. by rewrite bool_decide_eq_true_2.
  - intros ?. repeat case_bool_decide; lia.
  - intros ? ?. repeat case_bool_decide; try done.
    split; [done|]. rewrite lookup_seqZ. split; lia.
  - apply Forall_seqZ. intros page ?. repeat case_bool_decide; lia.
  - apply elem_of_seqZ. repeat case_bool_decide; lia.
Qed.

Lemma basePages_window_witness :
  basePages (usePagination (PaginationOptions 20 None None)) 10
  = [7; 8; 9; 10; 11; 12; 13].
Proof.
  destruct (basePages_window (PaginationOptions 20 None None)
              (usePagination (PaginationOptions 20 None None)) 10)
    as (_ & start & -> & _ & _ & _ & Hmid & _).
  - constructor.
  - by vm_compute.
  - by vm_compute.
  - destruct Hmid as [-> _]; [by vm_compute..|]. reflexivity.
Defined.

(** ** Arrays: reads, writes and lengths *)

Lemma js_strict_eq_true a b : js_strict_eq a b = true → a = b.
Proof.
  destruct a, b; simpl; try done; intros H; apply bool_decide_eq_true_1 in H;
    by subst.
Qed.

Lemma arr_set_length a i v :
  length (elems (arr_set a i v))
  = if bool_decide (0 ≤ i)
    then (length (elems a) `max` S (Z.to_nat i))%nat
    else length (elems a).
Proof.
  unfold arr_set. case_bool_decide; [|done]. simpl. case_bool_decide; simpl.
  - rewrite length_insert. lia.
  - rewrite !length_app, length_replicate. simpl. lia.
Qed.

(** A write inside the elements is a list update. *)
Lemma arr_set_inside a i v :
  0 ≤ i < arr_length a →
  elems (arr_set a i v) = <[Z.to_nat i:=v]> (elems a).
Proof.
  unfold arr_set, arr_length. intros Hi.
  rewrite bool_decide_eq_true_2 by lia. simpl.
  by rewrite bool_decide_eq_true_2 by lia.
Qed.

(** [if (a[i] !== v) a[i] = v], inside the elements. *)
Lemma arr_force a i v :
  0 ≤ i < arr_length a →
  elems (if js_strict_ne (arr_get a i) v then arr_set a i v else a)
  = <[Z.to_nat i:=v]> (elems a).
Proof.
  intros Hi. unfold js_strict_ne.
  destruct (js_strict_eq (arr_get a i) v) eqn:Heq; simpl.
  - apply js_strict_eq_true in Heq. unfold arr_get, arr_length in *.
    rewrite bool_decide_eq_true_2 in Heq by lia.
    destruct (lookup_lt_is_Some_2 (elems a) (Z.to_nat i)) as [x Hx]; [lia|].
    rewrite Hx in Heq. simpl in Heq. subst x.
    symmetry. by apply list_insert_id.
  - by apply arr_set_inside.
Qed.

Lemma arr_slice_length a s e :
  0 ≤ s ≤ e → e ≤ arr_length a →
  Z.of_nat (length (arr_slice a s e)) = e - s.
Proof.
  unfold arr_slice, rel_index, arr_length. intros Hs He.
  rewrite !bool_decide_eq_false_2 by lia.
  rewrite length_take, length_drop. lia.
Qed.

Lemma arr_get_run s n i :
  0 ≤ i < n → arr_get (arr_lit (VNum <$> seqZ s n)) i = VNum (s + i).
Proof.
  intros Hi. unfold arr_get, arr_lit. simpl.
  rewrite bool_decide_eq_true_2 by lia.
  rewrite list_lookup_fmap, lookup_seqZ_lt by lia. simpl. f_equal. lia.
Qed.

Lemma arr_length_run s n :
  arr_length (arr_lit (VNum <$> seqZ s n)) = Z.max n 0.
Proof. unfold arr_length, arr_lit. simpl. rewrite length_fmap, length_seqZ. lia. Qed.

(** ** The ellipsis feature never shortens the window *)

Lemma frontEllipsis_length p middlePage a :
  1 ≤ arr_length a →
  arr_length a ≤ arr_length (frontEllipsis p middlePage a) ≤ arr_length a + 1
  ∧ (ellipsisCountsAsPage p = true →
     2 ≤ arr_length a ∨ enableFirstLast p = false →
     arr_length (frontEllipsis p middlePage a) = arr_length a).
Proof.
  intros Hlen. unfold frontEllipsis.
  destruct (js_gt _ _); [|lia].
  destruct (ellipsisCountsAsPage p).
  - unfold arr_length in *. rewrite arr_set_length.
    destruct (enableFirstLast p); simpl; split; try lia; intros _ [?|?]; try done; lia.
  - split; [|done]. destruct (enableFirstLast p).
    + pose proof (arr_slice_length a 1 (arr_length a)) as Hs.
      unfold arr_length in *. simpl. lia.
    + unfold arr_length. simpl. lia.
Qed.

Lemma backEllipsis_length p middlePage a :
  1 ≤ arr_length a →
  arr_length a ≤ arr_length (backEllipsis p middlePage a) ≤ arr_length a + 1
  ∧ (ellipsisCountsAsPage p = true →
     arr_length (backEllipsis p middlePage a) = arr_length a).
Proof.
  intros Hlen. unfold backEllipsis.
  destruct (js_lt _ _); [|lia].
  destruct (ellipsisCountsAsPage p).
  - unfold arr_length in *. rewrite arr_set_length.
    destruct (enableFirstLast p); case_bool_decide; lia.
  - split; [|done]. destruct (enableFirstLast p).
    + pose proof (arr_slice_length a 0 (arr_length a - 1)) as Hs.
      unfold arr_length in *. simpl. rewrite length_app. simpl. lia.
    + unfold arr_length. simpl. rewrite length_app. simpl. lia.
Qed.

Lemma ellipsisFeature_length p a :
  1 ≤ arr_length a →
  arr_length a ≤ arr_length (ellipsisFeature p a) ≤ arr_length a + 2
  ∧ (enableEllipsis p = false → ellipsisFeature p a = a)
  ∧ (ellipsisCountsAsPage p = true →
     2 ≤ arr_length a ∨ enableFirstLast p = false →
     arr_length (ellipsisFeature p a) = arr_length a).
Proof.
  intros Hlen. unfold ellipsisFeature.
  destruct (enableEllipsis p); [|split; [lia|done]].
  set (m := arr_get a _).
  destruct (frontEllipsis_length p m a Hlen) as [Hf Hf'].
  destruct (backEllipsis_length p m (frontEllipsis p m a)) as [Hb Hb']; [lia|].
  split; [lia|]. split; [done|]. intros Hc Hside.
  rewrite Hb', Hf'; done.
Qed.

(** ** The first/last feature *)

(** With at least one slot, the first/last feature writes page 0 into the
    first slot and then [lastPage] into the last one. *)
Lemma firstLastFeature_elems p a :
  enableFirstLast p = true →
  1 ≤ arr_length a →
  elems (firstLastFeature p a)
  = <[Z.to_nat (arr_length a - 1):=VNum (lastPage p)]>
      (<[0%nat:=VNum 0]> (elems a)).
Proof.
  intros Hfl Hlen. unfold firstLastFeature. rewrite Hfl.
  set (a1 := if js_strict_ne (arr_get a 0) (VNum 0) then _ else _).
  assert (elems a1 = <[0%nat:=VNum 0]> (elems a)) as H1.
  { apply (arr_force a 0). lia. }
  assert (arr_length a1 = arr_length a) as Hl1.
  { unfold arr_length. by rewrite H1, length_insert. }
  rewrite arr_force by lia. by rewrite H1, Hl1.
Qed.

Lemma firstLastFeature_length p a :
  1 ≤ arr_length a → arr_length (firstLastFeature p a) = arr_length a.
Proof.
  intros Hlen. destruct (enableFirstLast p) eqn:Hfl.
  - unfold arr_length at 1. rewrite firstLastFeature_elems by done.
    by rewrite !length_insert.
  - unfold firstLastFeature. by rewrite Hfl.
Qed.

(** ** Lengths of the returned window *)

Lemma calculatePages_length_bounds p pageIndex :
  state_ok p →
  1 ≤ maxPagesShown p →
  let n := arr_length (calculatePages p pageIndex) in
  1 ≤ windowLen p ≤ n
  ∧ n ≤ windowLen p + 2
  ∧ windowLen p ≤ maxPagesShown p
  ∧ (enableEllipsis p = false → n = windowLen p)
  ∧ (ellipsisCountsAsPage p = true →
     2 ≤ windowLen p ∨ enableFirstLast p = false → n = windowLen p).
Proof.
  intros (Htot & Hlast & Hmid) Hmax n. subst n. unfold calculatePages.
  set (base := arr_lit (VNum <$> basePages p pageIndex)).
  assert (arr_length base = windowLen p) as Hbase.
  { unfold base. rewrite basePages_seqZ, arr_length_run. unfold windowLen. lia. }
  assert (1 ≤ windowLen p ≤ maxPagesShown p) as Hwin by (unfold windowLen; lia).
  destruct (ellipsisFeature_length p base) as (He & Hoff & Hcount); [lia|].
  rewrite firstLastFeature_length by lia. rewrite Hbase in *.
  repeat apply conj; try lia.
  - intros Hno. by rewrite Hoff.
  - intros Hc Hside. by apply Hcount.
Qed.

(** ** Fewer pages than slots *)

Lemma windowStart_small p currentPage :
  state_ok p → totalPages p ≤ maxPagesShown p → windowStart p currentPage = 0.
Proof.
  intros (Htot & Hlast & Hmid) Hsmall.
  pose proof (half_bounds (maxPagesShown p)).
  unfold windowStart, windowLen. repeat case_bool_decide; lia.
Qed.

(** When all the pages fit, no ellipsis is due and the first and last slots
    already hold page 0 and [lastPage]: the base window is returned as it
    is. *)
Lemma calculatePages_small p pageIndex :
  state_ok p →
  totalPages p ≤ maxPagesShown p →
  calculatePages p pageIndex = arr_lit (VNum <$> seqZ 0 (totalPages p)).
Proof.
  intros Hok Hsmall. pose proof Hok as (Htot & Hlast & Hmid).
  pose proof (half_bounds (maxPagesShown p)) as Hhalf.
  pose proof (half_bounds (totalPages p)) as Hhalf'.
  unfold calculatePages.
  rewrite basePages_seqZ, windowStart_small by done.
  unfold windowLen. rewrite Z.min_r by done.
  set (run := arr_lit _).
  assert (arr_length run = totalPages p) as Hlen.
  { unfold run. rewrite arr_length_run. lia. }
  assert (∀ i, 0 ≤ i < totalPages p → arr_get run i = VNum i) as Hget.
  { intros i Hi. unfold run. by rewrite arr_get_run. }
  assert (ellipsisFeature p run = run) as ->.
  { unfold ellipsisFeature. destruct (enableEllipsis p); [|done].
    rewrite Hlen, Hget by (unfold floor_half; lia). unfold floor_half.
    assert (frontEllipsis p (VNum (totalPages p `div` 2)) run = run) as ->.
    { unfold frontEllipsis, js_gt, js_lt. simpl.
      by rewrite bool_decide_eq_false_2 by lia. }
    unfold backEllipsis, js_lt. simpl.
    by rewrite bool_decide_eq_false_2 by lia. }
  unfold firstLastFeature. destruct (enableFirstLast p); [|done].
  rewrite Hget by lia. unfold js_strict_ne at 1. simpl.
  rewrite Hlen, Hget by lia. unfold js_strict_ne. simpl.
  by rewrite bool_decide_eq_true_2 by lia.
Qed.

(** C2: when [totalPages <= maxPagesShown], [calculatePages] returns the
    pages [0 .. totalPages - 1] in order and nothing else, with no ellipsis
    marker, for every integer current page, in range or not; five pages
    under the default seven slots give [[0, 1, 2, 3, 4]]. *)
Theorem calculatePages_all_pages o p pageIndex :
  reachable o p →
  totalPages p ≤ maxPagesShown p →
  calculatePages p pageIndex = arr_lit (VNum <$> seqZ 0 (totalPages p))
  ∧ length (elems (calculatePages p pageIndex)) = Z.to_nat (totalPages p)
  ∧ (ELLIPSIS ∉ elems (calculatePages p pageIndex))
  ∧ (totalPages p = 5 →
     elems (calculatePages p pageIndex)
     = [VNum 0; VNum 1; VNum 2; VNum 3; VNum 4]).
Proof.
  intros Hreach Hsmall.
  rewrite calculatePages_small by eauto using reachable_ok.
  split; [done|]. simpl. repeat apply conj.
  - by rewrite length_fmap, length_seqZ.
  - intros (n & Hn & _)%list_elem_of_fmap. done.
  - by intros ->.
Qed.

Lemma calculatePages_all_pages_witness :
  elems (calculatePages (usePagination (PaginationOptions 5 None None)) 3)
  = [VNum 0; VNum 1; VNum 2; VNum 3; VNum 4].
Proof.
  apply (calculatePages_all_pages (PaginationOptions 5 None None)
           (usePagination (PaginationOptions 5 None None)) 3);
    [constructor|by vm_compute|reflexivity].
Defined.

(** C5: with every option left at its default (seven slots, ellipsis on and
    counted as a page, first/last on), twenty pages and current page 10,
    [calculatePages] returns the seven slots
    [[0, "...", 9, 10, 11, "...", 19]]. *)
Theorem calculatePages_twenty_pages :
  let p := usePagination (PaginationOptions 20 None None) in
  maxPagesShown p = 7
  ∧ enableEllipsis p = true
  ∧ ellipsisCountsAsPage p = true
  ∧ showEllipsisIfOnlyOnePage p = true
  ∧ enableFirstLast p = true
  ∧ elems (calculatePages p 10)
    = [VNum 0; ELLIPSIS; VNum 9; VNum 10; VNum 11; ELLIPSIS; VNum 19]
  ∧ length (elems (calculatePages p 10)) = 7%nat.
Proof. by vm_compute. Qed.

(** ** The window is never empty *)

(** C9: with [maxPagesShown >= 1], in every reachable state, and every
    reachable state has [totalPages >= 1], [calculatePages] returns at
    least one slot for every integer current page, in range or not. *)
Theorem calculatePages_nonempty o p pageIndex :
  1 ≤ maxPagesShown p →
  reachable o p →
  1 ≤ totalPages p
  ∧ (1 ≤ length (elems (calculatePages p pageIndex)))%nat
  ∧ elems (calculatePages p pageIndex) ≠ [].
Proof.
  intros Hmax Hreach. pose proof (reachable_ok _ _ Hreach) as Hok.
  destruct (calculatePages_length_bounds p pageIndex Hok Hmax) as (Hn & _).
  unfold arr_length in Hn. split; [apply Hok|]. split; [lia|].
  intros Hnil. rewrite Hnil in Hn. simpl in Hn. lia.
Qed.

Lemma calculatePages_nonempty_witness :
  let p :=
    updateTotalPages (-5) (usePagination (PaginationOptions 20 (Some 1) None)) in
  (1 ≤ length (elems (calculatePages p 42)))%nat.
Proof.
  intros p.
  apply (calculatePages_nonempty (PaginationOptions 20 (Some 1) None) p 42).
  - by vm_compute.
  - do 2 constructor.
Defined.

(** ** First and last slots *)

(** C3 fails as stated: with one slot, two pages and the current page 0,
    [enableFirstLast] is on and the returned window is the single slot
    [[1]]: its first slot is page 1, not page 0. *)
Lemma first_slot_not_zero :
  let o := PaginationOptions 2 (Some 1) None in
  let p := usePagination o in
  reachable o p
  ∧ enableFirstLast p = true
  ∧ 1 ≤ maxPagesShown p
  ∧ 1 ≤ totalPages p
  ∧ 0 ≤ 0 ≤ lastPage p
  ∧ elems (calculatePages p 0) = [VNum 1]
  ∧ ¬ (head (elems (calculatePages p 0)) = Some (VNum 0)
       ∧ last (elems (calculatePages p 0)) = Some (VNum (lastPage p))).
Proof.
  intros o p. split; [constructor|].
  repeat (split; [by vm_compute|]).
  intros [Hhead _]. vm_compute in Hhead. discriminate.
Qed.

(** C3, amended: with [enableFirstLast] on, [maxPagesShown >= 1], a
    reachable state and the current page in [[0, lastPage]], the last slot
    of the returned window is page [lastPage]; the first slot is page 0 as
    soon as the window has two slots or there is a single page, and a
    window has two slots whenever [maxPagesShown >= 2] and there are two
    pages. *)
Theorem first_last_slots o p currentPage :
  reachable o p →
  enableFirstLast p = true →
  1 ≤ maxPagesShown p →
  0 ≤ currentPage ≤ lastPage p →
  let window := elems (calculatePages p currentPage) in
  last window = Some (VNum (lastPage p))
  ∧ ((2 ≤ length window)%nat ∨ totalPages p = 1 ∨ 2 ≤ maxPagesShown p →
     head window = Some (VNum 0))
  ∧ (2 ≤ maxPagesShown p → 2 ≤ totalPages p → (2 ≤ length window)%nat).
Proof.
  intros Hreach Hfl Hmax Hcur window.
  pose proof (reachable_ok _ _ Hreach) as Hok.
  pose proof Hok as (Htot & Hlast & Hmid).
  pose proof (calculatePages_length_bounds p currentPage Hok Hmax) as Hn.
  simpl in Hn. destruct Hn as (Hn & _).
  assert (2 ≤ maxPagesShown p → 2 ≤ totalPages p → (2 ≤ length window)%nat)
    as Htwo.
  { intros ? ?. unfold windowLen, arr_length in Hn. fold window in Hn. lia. }
  subst window. unfold calculatePages in *.
  assert (arr_length (arr_lit (VNum <$> basePages p currentPage)) = windowLen p)
    as Hbase.
  { rewrite basePages_seqZ, arr_length_run. lia. }
  destruct (ellipsisFeature_length p
              (arr_lit (VNum <$> basePages p currentPage))) as (He & _);
    [lia|].
  set (a := ellipsisFeature p _) in *.
  assert (1 ≤ arr_length a) as Ha by lia.
  rewrite firstLastFeature_elems in * by done.
  unfold arr_length in Ha.
  split; [|split; [|done]].
  - rewrite last_lookup, length_insert, length_insert.
    replace (Z.to_nat (arr_length a - 1)) with (pred (length (elems a)))
      by (unfold arr_length; lia).
    apply list_lookup_insert_eq. rewrite length_insert. lia.
  - rewrite !length_insert in *. intros Hside.
    rewrite head_lookup.
    destruct (decide (2 ≤ length (elems a))%nat) as [Hlen|Hlen].
    + rewrite list_lookup_insert_ne by (unfold arr_length; lia).
      apply list_lookup_insert_eq. lia.
    + assert (totalPages p = 1) as Hone by lia.
      replace (Z.to_nat (arr_length a - 1)) with 0%nat
        by (unfold arr_length; lia).
      rewrite list_lookup_insert_eq by (rewrite length_insert; lia).
      do 2 f_equal. lia.
Qed.

Lemma first_last_slots_witness :
  let window :=
    elems (calculatePages (usePagination (PaginationOptions 20 None None)) 10) in
  last window = Some (VNum 19) ∧ head window = Some (VNum 0).
Proof.
  intros window.
  destruct (first_last_slots (PaginationOptions 20 None None)
              (usePagination (PaginationOptions 20 None None)) 10)
    as (Hlast & Hhead & _);
    [constructor|reflexivity|by vm_compute..|].
  split; [exact Hlast|]. apply Hhead. right; right. by vm_compute.
Defined.

(** ** The length of the window against [maxPagesShown] *)

(** Where the cap holds: the window has at most [maxPagesShown + 2] slots;
    with the ellipsis counted as a page, or switched off, it has at most
    [maxPagesShown] slots as soon as [maxPagesShown >= 2] or the
    first/last feature is off. *)
Lemma calculatePages_length_le p pageIndex :
  state_ok p →
  1 ≤ maxPagesShown p →
  let n := arr_length (calculatePages p pageIndex) in
  n ≤ maxPagesShown p + 2
  ∧ (ellipsisCountsAsPage p = true ∨ enableEllipsis p = false →
     2 ≤ maxPagesShown p ∨ enableFirstLast p = false →
     n ≤ maxPagesShown p).
Proof.
  intros Hok Hmax n.
  destruct (calculatePages_length_bounds p pageIndex Hok Hmax)
    as (Hwin & Hup & Hcap & Hoff & Hcount).
  fold n in Hwin, Hup, Hoff, Hcount. split; [lia|].
  intros [Hc|Hno] Hside; [|rewrite Hoff by done; lia].
  destruct (decide (2 ≤ windowLen p)) as [Htwo|Hone].
  - rewrite Hcount by auto. lia.
  - destruct Hside as [Hmax2|Hfl]; [|rewrite Hcount by auto; lia].
    assert (totalPages p ≤ maxPagesShown p) as Hsmall
      by (unfold windowLen in *; lia).
    subst n. rewrite calculatePages_small by done.
    rewrite arr_length_run. lia.
Qed.

(** C4 breaks on one slot: with [maxPagesShown = 1], the other options at
    their defaults (the ellipsis counted as a page, first/last on), two
    pages and the current page 1, the front ellipsis is written at index 1
    of a one-slot window, which extends it: the returned window [[0, 1]]
    has two slots, one more than [maxPagesShown]. *)
Theorem window_longer_than_max :
  let o := PaginationOptions 2 (Some 1) None in
  let p := usePagination o in
  reachable o p
  ∧ maxPagesShown p = 1
  ∧ totalPages p = 2
  ∧ ellipsisCountsAsPage p = true
  ∧ 0 ≤ 1 ≤ lastPage p
  ∧ elems (ellipsisFeature p (arr_lit (VNum <$> basePages p 1)))
    = [VNum 1; ELLIPSIS]
  ∧ elems (calculatePages p 1) = [VNum 0; VNum 1]
  ∧ ¬ arr_length (calculatePages p 1) ≤ maxPagesShown p.
Proof.
  intros o p. split; [constructor|].
  repeat (split; [by vm_compute|]). by vm_compute.
Qed.

(** * Further properties of the closures *)

(** ** Where the base window starts *)

Lemma windowStart_bounds p currentPage :
  state_ok p →
  1 ≤ maxPagesShown p →
  0 ≤ currentPage ≤ lastPage p →
  0 ≤ windowStart p currentPage
  ∧ windowStart p currentPage + windowLen p - 1 ≤ lastPage p
  ∧ windowStart p currentPage ≤ currentPage
    < windowStart p currentPage + windowLen p.
Proof.
  intros (Htot & Hlast & Hmid) Hmax Hcur.
  pose proof (half_bounds (maxPagesShown p)).
  unfold windowStart, windowLen. repeat case_bool_decide; lia.
Qed.

(** The current page reaches the window only through the base window. *)
Lemma calculatePages_windowStart p currentPage currentPage' :
  windowStart p currentPage = windowStart p currentPage' →
  calculatePages p currentPage = calculatePages p currentPage'.
Proof.
  intros Hstart. unfold calculatePages. by rewrite !basePages_seqZ, Hstart.
Qed.

(** ** [updateTotalPages] after [usePagination] *)

(** X1: however many [updateTotalPages] calls follow [usePagination], the
    closures end in the state [usePagination] builds from the same options
    with the [totalPages] of the last call: earlier totals leave no trace
    and the configuration is never touched. *)
Theorem updates_fresh o ns :
  updates ns (usePagination o)
  = usePagination (with_total o (default (opt_totalPages o) (last ns))).
Proof.
  induction ns as [|n ns IH] using rev_ind.
  - by destruct o.
  - unfold updates in *. rewrite foldl_app, IH, last_snoc. done.
Qed.

(** ** The length of the window, exactly *)

(** X2: with the ellipsis counted as a page, or switched off, and with
    [maxPagesShown >= 2] or the first/last feature off, the returned window
    has exactly [min maxPagesShown totalPages] slots, for every integer
    current page. *)
Theorem calculatePages_length_exact o p pageIndex :
  reachable o p →
  1 ≤ maxPagesShown p →
  ellipsisCountsAsPage p = true ∨ enableEllipsis p = false →
  2 ≤ maxPagesShown p ∨ enableFirstLast p = false →
  arr_length (calculatePages p pageIndex)
  = Z.min (maxPagesShown p) (totalPages p).
Proof.
  intros Hreach Hmax Hmode Hside.
  pose proof (reachable_ok _ _ Hreach) as Hok.
  destruct (calculatePages_length_bounds p pageIndex Hok Hmax)
    as (Hwin & _ & _ & Hoff & Hcount).
  fold (windowLen p). destruct Hmode as [Hc|Hno]; [|by apply Hoff].
  destruct (decide (2 ≤ windowLen p)) as [Htwo|Hone]; [by apply Hcount; auto|].
  destruct Hside as [Hmax2|Hfl]; [|by apply Hcount; auto].
  assert (totalPages p ≤ maxPagesShown p) as Hsmall
    by (unfold windowLen in *; lia).
  rewrite calculatePages_small, arr_length_run by done.
  unfold windowLen in *. lia.
Qed.

Lemma calculatePages_length_exact_witness :
  arr_length (calculatePages (usePagination (PaginationOptions 20 None None)) 10)
  = 7.
Proof.
  apply (calculatePages_length_exact (PaginationOptions 20 None None)
           (usePagination (PaginationOptions 20 None None)) 10);
    [constructor|by vm_compute|by left|by left; vm_compute].
Defined.

(** ** Which way an ellipsis click goes *)

(** X3: with [enableEllipsisClick] on and the current page in
    [[0, lastPage]], a click on an ellipsis before [middleIndex] never
    lands after the current page, and lands strictly before it unless the
    current page is 0; a click on an ellipsis from [middleIndex] on never
    lands before the current page, and lands strictly after it when at
    least two pages follow the current page, or when one page follows and
    [currentPage + lastPage] does not exceed [2^53]. *)
Theorem calculatePageClick_direction p currentPage clicked buttonIndex :
  enableEllipsisClick p = true →
  is_number clicked = false →
  0 ≤ currentPage ≤ lastPage p →
  ∃ target,
    calculatePageClick p currentPage clicked buttonIndex = VNum target
    ∧ (buttonIndex < middleIndex p →
       target ≤ currentPage ∧ (0 < currentPage → target < currentPage))
    ∧ (¬ buttonIndex < middleIndex p →
       currentPage ≤ target
       ∧ (currentPage + 1 < lastPage p → currentPage < target)
       ∧ (currentPage < lastPage p → currentPage + lastPage p ≤ 2 ^ 53 →
          currentPage < target)).
Proof.
  intros Hclick Hnum Hcur. unfold calculatePageClick. rewrite Hnum, Hclick.
  pose proof (floor_half_spec currentPage).
  pose proof (back_target_cases currentPage (lastPage p)) as Hback.
  simpl in Hback.
  case_bool_decide; eexists; (split; [done|]); split; intros ?; lia.
Qed.

Lemma calculatePageClick_direction_witness :
  ∃ target,
    calculatePageClick (usePagination (PaginationOptions 20 None None))
      10 ELLIPSIS 1 = VNum target
    ∧ target < 10.
Proof.
  destruct (calculatePageClick_direction
              (usePagination (PaginationOptions 20 None None)) 10 ELLIPSIS 1)
    as (target & Heq & Hfront & _); [reflexivity|reflexivity|by vm_compute|].
  exists target. split; [exact Heq|]. apply Hfront; by vm_compute.
Defined.

(** ** Current pages at and beyond the ends *)

(** X4: the window does not move while the current page is among the first
    [middleIndex] pages, and a current page below 0 gets the window of
    page 0; likewise the window is that of [lastPage] for every current
    page above [lastPage - middleIndex], the pages beyond [lastPage]
    included. *)
Theorem calculatePages_ends o p currentPage :
  reachable o p →
  1 ≤ maxPagesShown p →
  (currentPage ≤ 0 ∨ currentPage < middleIndex p →
   calculatePages p currentPage = calculatePages p 0)
  ∧ (lastPage p ≤ currentPage ∨ lastPage p - middleIndex p < currentPage →
     calculatePages p currentPage = calculatePages p (lastPage p)).
Proof.
  intros Hreach Hmax.
  destruct (reachable_ok _ _ Hreach) as (Htot & Hlast & Hmid).
  pose proof (half_bounds (maxPagesShown p)).
  split; intros Hside; apply calculatePages_windowStart;
    unfold windowStart, windowLen; repeat case_bool_decide; lia.
Qed.

Lemma calculatePages_ends_witness :
  let p := usePagination (PaginationOptions 20 None None) in
  calculatePages p (-3) = calculatePages p 0
  ∧ calculatePages p 2 = calculatePages p 0
  ∧ calculatePages p 17 = calculatePages p 19
  ∧ calculatePages p 25 = calculatePages p 19.
Proof.
  intros p.
  pose proof (calculatePages_ends (PaginationOptions 20 None None) p) as H.
  split; [|split; [|split]].
  - apply (H (-3)); [constructor|by vm_compute|by left].
  - apply (H 2); [constructor|by vm_compute|by right; vm_compute].
  - apply (H 17); [constructor|by vm_compute|by right; vm_compute].
  - apply (H 25); [constructor|by vm_compute|by left; vm_compute].
Defined.

(** X5: when the current page moves on by one, the base window keeps its
    length and moves on by one page at most; it never moves back. *)
Theorem basePages_slides o p currentPage :
  reachable o p →
  1 ≤ maxPagesShown p →
  0 ≤ currentPage < lastPage p →
  ∃ start start',
    basePages p currentPage
    = seqZ start (Z.min (maxPagesShown p) (totalPages p))
    ∧ basePages p (currentPage + 1)
      = seqZ start' (Z.min (maxPagesShown p) (totalPages p))
    ∧ start ≤ start' ≤ start + 1.
Proof.
  intros Hreach Hmax Hcur.
  destruct (reachable_ok _ _ Hreach) as (Htot & Hlast & Hmid).
  pose proof (half_bounds (maxPagesShown p)).
  exists (windowStart p currentPage), (windowStart p (currentPage + 1)).
  rewrite !basePages_seqZ. split; [done|]. split; [done|].
  unfold windowStart, windowLen. repeat case_bool_decide; lia.
Qed.

Lemma basePages_slides_witness :
  ∃ start start',
    basePages (usePagination (PaginationOptions 20 None None)) 16
    = seqZ start 7
    ∧ basePages (usePagination (PaginationOptions 20 None None)) 17
      = seqZ start' 7
    ∧ start ≤ start' ≤ start + 1.
Proof.
  apply (basePages_slides (PaginationOptions 20 None None)
           (usePagination (PaginationOptions 20 None None)) 16);
    [constructor|by vm_compute..].
Defined.

(** ** Slots that the features leave in place *)

Lemma arr_slice_tail a :
  1 ≤ arr_length a → arr_slice a 1 (arr_length a) = drop 1 (elems a).
Proof.
  intros Hlen. unfold arr_slice, rel_index, arr_length in *.
  rewrite !bool_decide_eq_false_2 by lia. rewrite Z.min_id, Z.min_l by lia.
  change (Z.to_nat 1) with 1%nat. apply take_ge. rewrite length_drop. lia.
Qed.

Lemma arr_slice_init a :
  1 ≤ arr_length a →
  arr_slice a 0 (arr_length a - 1) = take (length (elems a) - 1) (elems a).
Proof.
  intros Hlen. unfold arr_slice, rel_index, arr_length in *.
  rewrite !bool_decide_eq_false_2 by lia. rewrite Z.min_l, Z.min_l by lia.
  change (Z.to_nat 0) with 0%nat. rewrite drop_0. f_equal. lia.
Qed.

(** From index 2 on, the front ellipsis either leaves the slots where they
    are or moves them one place to the right. *)
Lemma frontEllipsis_lookup p middlePage a :
  2 ≤ arr_length a →
  ∃ d : nat,
    (d ≤ 1)%nat
    ∧ length (elems (frontEllipsis p middlePage a)) = (length (elems a) + d)%nat
    ∧ (∀ j, (2 ≤ j)%nat →
         elems (frontEllipsis p middlePage a) !! j = elems a !! (j - d)%nat)
    ∧ (ellipsisCountsAsPage p = false → d = 0%nat →
       frontEllipsis p middlePage a = a).
Proof.
  intros Hlen. unfold frontEllipsis, arr_length in *.
  destruct (js_gt _ _).
  - destruct (ellipsisCountsAsPage p).
    + exists 0%nat. split; [lia|].
      rewrite arr_set_inside
        by (unfold arr_length; destruct (enableFirstLast p); lia).
      rewrite length_insert. split; [lia|]. split; [|done]. intros j Hj.
      rewrite list_lookup_insert_ne by (destruct (enableFirstLast p); lia).
      f_equal; lia.
    + exists 1%nat. split; [lia|]. destruct (enableFirstLast p); simpl.
      * rewrite arr_slice_tail by (unfold arr_length; lia).
        rewrite length_drop. split; [lia|]. split; [|done]. intros j Hj.
        destruct j as [|[|j]]; [lia..|]. simpl.
        rewrite lookup_drop. f_equal; lia.
      * split; [lia|]. split; [|done].
        intros j Hj. destruct j as [|j]; [lia|]. simpl.
        f_equal; lia.
  - exists 0%nat. split; [lia|]. split; [lia|]. split; [|done].
    intros j _. f_equal; lia.
Qed.

(** The back ellipsis leaves every slot but the last two where it is. *)
Lemma backEllipsis_lookup p middlePage a i :
  (i + 2 < length (elems a))%nat →
  elems (backEllipsis p middlePage a) !! i = elems a !! i.
Proof.
  intros Hi. unfold backEllipsis.
  destruct (js_lt _ _); [|done].
  destruct (ellipsisCountsAsPage p).
  - rewrite arr_set_inside
      by (unfold arr_length; destruct (enableFirstLast p); lia).
    apply list_lookup_insert_ne.
    unfold arr_length. destruct (enableFirstLast p); lia.
  - destruct (enableFirstLast p); simpl.
    + rewrite arr_slice_init by (unfold arr_length; lia).
      rewrite lookup_app_l by (rewrite length_take; lia).
      by rewrite lookup_take_lt by lia.
    + by rewrite lookup_app_l by lia.
Qed.

(** The first/last feature keeps a page where it is, unless it stands in
    the first slot without being page 0 or in the last slot without being
    [lastPage]. *)
Lemma firstLastFeature_keeps p a j c :
  elems a !! j = Some (VNum c) →
  (j = 0%nat → c = 0) →
  (S j = length (elems a) → c = lastPage p) →
  elems (firstLastFeature p a) !! j = Some (VNum c).
Proof.
  intros Hj Hfirst Hlast. pose proof (lookup_lt_Some _ _ _ Hj) as Hlt.
  destruct (enableFirstLast p) eqn:Hfl;
    [|unfold firstLastFeature; by rewrite Hfl].
  rewrite firstLastFeature_elems by (unfold arr_length; done || lia).
  unfold arr_length. rewrite !list_lookup_insert, length_insert.
  repeat case_decide; try done.
  - rewrite Hlast by lia. done.
  - rewrite Hfirst by lia. done.
Qed.

Lemma run_lookup s n (i : nat) :
  Z.of_nat i < n →
  elems (arr_lit (VNum <$> seqZ s n)) !! i = Some (VNum (s + Z.of_nat i)).
Proof.
  intros Hi. simpl. by rewrite list_lookup_fmap, lookup_seqZ_lt by lia.
Qed.

(** The tests of the two ellipses on the base window, as inequalities. *)
Lemma front_test p s n :
  1 ≤ n →
  js_gt (js_sub (arr_get (arr_lit (VNum <$> seqZ s n))
                   (floor_half (arr_length (arr_lit (VNum <$> seqZ s n)))))
           (VNum (middleIndex p))) (VNum 0)
  = bool_decide (0 < s + n `div` 2 - middleIndex p).
Proof.
  intros Hn. pose proof (half_bounds n).
  rewrite arr_length_run, Z.max_l by lia. unfold floor_half.
  by rewrite arr_get_run by lia.
Qed.

Lemma back_test p s n :
  1 ≤ n →
  js_lt (js_add (arr_get (arr_lit (VNum <$> seqZ s n))
                   (floor_half (arr_length (arr_lit (VNum <$> seqZ s n)))))
           (VNum (middleIndex p))) (VNum (lastPage p))
  = bool_decide (s + n `div` 2 + middleIndex p < lastPage p).
Proof.
  intros Hn. pose proof (half_bounds n).
  rewrite arr_length_run, Z.max_l by lia. unfold floor_half.
  by rewrite arr_get_run by lia.
Qed.

Lemma frontEllipsis_idle p middlePage a :
  js_gt (js_sub middlePage (VNum (middleIndex p))) (VNum 0) = false →
  frontEllipsis p middlePage a = a.
Proof. intros H. unfold frontEllipsis. by rewrite H. Qed.

Lemma backEllipsis_idle p middlePage a :
  js_lt (js_add middlePage (VNum (middleIndex p))) (VNum (lastPage p)) = false →
  backEllipsis p middlePage a = a.
Proof. intros H. unfold backEllipsis. by rewrite H. Qed.

(** ** The current page stays in the window *)

(** The three positions of the base window when not all pages fit. *)
Lemma windowStart_cases p currentPage :
  state_ok p →
  1 ≤ maxPagesShown p →
  maxPagesShown p < totalPages p →
  0 ≤ currentPage ≤ lastPage p →
  windowLen p = maxPagesShown p
  ∧ ((currentPage < middleIndex p ∧ windowStart p currentPage = 0)
     ∨ (middleIndex p ≤ currentPage ∧ lastPage p - middleIndex p < currentPage
        ∧ windowStart p currentPage = lastPage p - maxPagesShown p + 1)
     ∨ (middleIndex p ≤ currentPage ≤ lastPage p - middleIndex p
        ∧ windowStart p currentPage = currentPage - middleIndex p)).
Proof.
  intros (Htot & Hlast & Hmid) Hmax Hbig Hcur.
  unfold windowStart, windowLen. split; [lia|].
  repeat case_bool_decide; lia.
Qed.

Lemma ellipsisFeature_keeps_current p currentPage :
  state_ok p →
  5 ≤ maxPagesShown p →
  maxPagesShown p < totalPages p →
  0 ≤ currentPage ≤ lastPage p →
  let a := ellipsisFeature p
             (arr_lit (VNum <$> seqZ (windowStart p currentPage) (windowLen p))) in
  ∃ j : nat,
    elems a !! j = Some (VNum currentPage)
    ∧ (j = 0%nat → currentPage = 0)
    ∧ (S j = length (elems a) → currentPage = lastPage p).
Proof.
  intros Hok Hmax Hbig Hcur.
  destruct (windowStart_cases p currentPage Hok) as (Hlen & Hcase); [lia..|].
  destruct Hok as (Htot & Hlast & Hmid).
  pose proof (half_bounds (maxPagesShown p)) as Hhalf.
  rewrite Hlen. set (s := windowStart p currentPage) in *.
  set (n := maxPagesShown p) in *. set (run := arr_lit _).
  assert (length (elems run) = Z.to_nat n) as Hrun.
  { unfold run. simpl. by rewrite length_fmap, length_seqZ. }
  assert (∀ i : nat, Z.of_nat i < n →
            elems run !! i = Some (VNum (s + Z.of_nat i))) as Hget.
  { intros i Hi. by apply run_lookup. }
  intros a. subst a. unfold ellipsisFeature.
  destruct (enableEllipsis p).
  - assert (arr_get run (floor_half (arr_length run))
            = VNum (s + middleIndex p)) as ->.
    { unfold arr_length. rewrite Hrun, Z2Nat.id by lia. unfold floor_half, run.
      rewrite arr_get_run by (fold n in Hmid; lia). by rewrite Hmid. }
    set (m := VNum (s + middleIndex p)).
    destruct (frontEllipsis_lookup p m run) as (d & Hd & Hlen1 & Hfront & _);
      [unfold arr_length; lia|].
    pose proof (backEllipsis_length p m (frontEllipsis p m run)) as [Hlen2 _];
      [unfold arr_length; lia|].
    unfold arr_length in Hlen2.
    destruct Hcase as [[Hlow Hs]|[(Hmidle & Hhigh & Hs)|(Hmiddle & Hs)]].
    + rewrite (frontEllipsis_idle p m run) in *
        by (unfold m, js_gt, js_sub, js_lt; simpl;
            apply bool_decide_eq_false_2; lia).
      exists (Z.to_nat currentPage). split; [|split; [lia|lia]].
      rewrite backEllipsis_lookup by lia. rewrite Hget by lia.
      do 2 f_equal. lia.
    + rewrite (backEllipsis_idle p m)
        by (unfold m, js_add, js_lt; simpl; apply bool_decide_eq_false_2; lia).
      exists (Z.to_nat (currentPage - s) + d)%nat.
      split; [|split; [lia|lia]].
      rewrite Hfront by lia.
      replace (Z.to_nat (currentPage - s) + d - d)%nat
        with (Z.to_nat (currentPage - s)) by lia.
      rewrite Hget by lia. do 2 f_equal. lia.
    + exists (Z.to_nat (middleIndex p) + d)%nat.
      split; [|split; [lia|lia]].
      rewrite backEllipsis_lookup by lia. rewrite Hfront by lia.
      replace (Z.to_nat (middleIndex p) + d - d)%nat
        with (Z.to_nat (middleIndex p)) by lia.
      rewrite Hget by lia. do 2 f_equal. lia.
  - exists (Z.to_nat (currentPage - s)).
    split; [|split; [lia|lia]].
    rewrite Hget by (destruct Hcase as [?|[?|?]]; lia).
    do 2 f_equal. destruct Hcase as [?|[?|?]]; lia.
Qed.

(** X6: with [maxPagesShown >= 5] and the current page in [[0, lastPage]],
    the current page is one of the slots of the returned window, whatever
    the ellipsis options: no marker and no first/last overwrite takes its
    place. *)
Theorem calculatePages_shows_current o p currentPage :
  reachable o p →
  5 ≤ maxPagesShown p →
  0 ≤ currentPage ≤ lastPage p →
  VNum currentPage ∈ elems (calculatePages p currentPage).
Proof.
  intros Hreach Hmax Hcur. pose proof (reachable_ok _ _ Hreach) as Hok.
  destruct (decide (totalPages p ≤ maxPagesShown p)) as [Hsmall|Hbig].
  - rewrite calculatePages_small by done. simpl.
    apply list_elem_of_fmap. exists currentPage. split; [done|].
    apply elem_of_seqZ. destruct Hok as (_ & ? & _). lia.
  - destruct (ellipsisFeature_keeps_current p currentPage Hok)
      as (j & Hj & Hfirst & Hlast); [lia..|].
    unfold calculatePages. rewrite basePages_seqZ.
    eapply list_elem_of_lookup_2, firstLastFeature_keeps; eauto.
Qed.

Lemma calculatePages_shows_current_witness :
  VNum 10
  ∈ elems (calculatePages (usePagination (PaginationOptions 20 None None)) 10).
Proof.
  apply (calculatePages_shows_current (PaginationOptions 20 None None));
    [constructor|by vm_compute..].
Defined.

(** ** What the slots of the window hold *)

Lemma run_pages p s n :
  0 ≤ s → s + n - 1 ≤ lastPage p →
  Forall (page_slot p) (VNum <$> seqZ s n).
Proof.
  intros Hs Hn. apply Forall_fmap, Forall_seqZ. intros page Hpage.
  exists page. split; [done|lia].
Qed.

Lemma page_slot_ok p v : page_slot p v → slot_ok p v.
Proof. by right. Qed.

Lemma firstLastFeature_Forall (P : value → Prop) p a :
  P (VNum 0) → P (VNum (lastPage p)) →
  1 ≤ arr_length a →
  Forall P (elems a) → Forall P (elems (firstLastFeature p a)).
Proof.
  intros Hzero Hlast Hlen Hall. destruct (enableFirstLast p) eqn:Hfl.
  - rewrite firstLastFeature_elems by done.
    apply Forall_insert; [|done]. by apply Forall_insert.
  - unfold firstLastFeature. by rewrite Hfl.
Qed.

Lemma frontEllipsis_slots p middlePage s n :
  2 ≤ n → 0 ≤ s → s + n - 1 ≤ lastPage p →
  Forall (slot_ok p)
    (elems (frontEllipsis p middlePage (arr_lit (VNum <$> seqZ s n)))).
Proof.
  intros Hn Hs Hend. set (run := arr_lit _).
  assert (Forall (slot_ok p) (elems run)) as Hrun.
  { apply (Forall_impl (page_slot p)); [by apply run_pages|]. apply page_slot_ok. }
  assert (arr_length run = n) as Hlen.
  { unfold run. rewrite arr_length_run. lia. }
  unfold frontEllipsis. destruct (js_gt _ _); [|done].
  destruct (ellipsisCountsAsPage p).
  - rewrite arr_set_inside by (destruct (enableFirstLast p); lia).
    apply Forall_insert; [done|by left].
  - name_ellipsis_value ev.
    assert (slot_ok p ev) as Hev.
    { unfold ev. case_match; [|by left].
      unfold run. rewrite arr_get_run by lia. right. eexists.
      split; [reflexivity|lia]. }
    destruct (enableFirstLast p); simpl.
    + rewrite arr_slice_tail by lia.
      repeat apply Forall_cons_2; [|done|by apply Forall_drop].
      unfold run at 1. rewrite arr_get_run by lia. right. eexists.
      split; [reflexivity|lia].
    + by apply Forall_cons_2.
Qed.

(** With the ellipsis not counted, the slot before the last one still holds
    the page before the last one of the base window when the back ellipsis
    reads it. *)
Lemma frontEllipsis_penultimate p middlePage s n :
  ellipsisCountsAsPage p = false →
  3 ≤ n →
  let a := frontEllipsis p middlePage (arr_lit (VNum <$> seqZ s n)) in
  arr_get a (arr_length a - 2) = VNum (s + n - 2).
Proof.
  intros Hcount Hn. set (run := arr_lit _).
  assert (length (elems run) = Z.to_nat n) as Hrun.
  { unfold run. simpl. by rewrite length_fmap, length_seqZ. }
  assert (∀ i : nat, Z.of_nat i < n →
            elems run !! i = Some (VNum (s + Z.of_nat i))) as Hget.
  { intros i Hi. by apply run_lookup. }
  destruct (frontEllipsis_lookup p middlePage run)
    as (d & Hd & Hlen & Hfront & Hidle); [unfold arr_length; lia|].
  simpl. destruct d as [|d].
  - rewrite Hidle by done. unfold arr_get, arr_length. rewrite Hrun.
    rewrite bool_decide_eq_true_2 by lia.
    rewrite Hget by lia. simpl. f_equal. lia.
  - unfold arr_get, arr_length. rewrite Hlen, Hrun.
    rewrite bool_decide_eq_true_2 by lia. rewrite Hfront by lia.
    rewrite Hget by lia. simpl. f_equal. lia.
Qed.

Lemma backEllipsis_slots p middlePage a :
  2 ≤ arr_length a →
  Forall (slot_ok p) (elems a) →
  (ellipsisCountsAsPage p = false →
   slot_ok p (js_add (arr_get a (arr_length a - 2)) (VNum 1))) →
  Forall (slot_ok p) (elems (backEllipsis p middlePage a)).
Proof.
  intros Hlen Hall Hpen. unfold backEllipsis. destruct (js_lt _ _); [|done].
  destruct (ellipsisCountsAsPage p).
  - rewrite arr_set_inside by (destruct (enableFirstLast p); lia).
    apply Forall_insert; [done|by left].
  - name_ellipsis_value ev.
    assert (slot_ok p ev) as Hev.
    { unfold ev. case_match; [by apply Hpen|by left]. }
    destruct (enableFirstLast p); simpl.
    + rewrite arr_slice_init by lia.
      apply Forall_app. split; [by apply Forall_take|].
      repeat apply Forall_cons_2; [done| |done].
      unfold arr_get, arr_length in *. rewrite bool_decide_eq_true_2 by lia.
      destruct (lookup_lt_is_Some_2 (elems a)
                  (Z.to_nat (Z.of_nat (length (elems a)) - 1))) as [x Hx];
        [lia|].
      rewrite Hx. simpl. by eapply Forall_lookup_1.
    + apply Forall_app. split; [done|]. by apply Forall_cons_2.
Qed.

(** X7: with [maxPagesShown >= 3] and the current page in [[0, lastPage]],
    every slot of the returned window is either the marker ["..."] or a
    page of [[0, lastPage]]: no [NaN], no [undefined] and no other string
    reaches the caller. *)
Theorem calculatePages_slots o p currentPage :
  reachable o p →
  3 ≤ maxPagesShown p →
  0 ≤ currentPage ≤ lastPage p →
  Forall (slot_ok p) (elems (calculatePages p currentPage)).
Proof.
  intros Hreach Hmax Hcur. pose proof (reachable_ok _ _ Hreach) as Hok.
  pose proof Hok as (Htot & Hlast & Hmid).
  destruct (decide (totalPages p ≤ maxPagesShown p)) as [Hsmall|Hbig].
  - rewrite calculatePages_small by done. simpl.
    apply (Forall_impl (page_slot p)); [apply run_pages; lia|]. apply page_slot_ok.
  - destruct (windowStart_bounds p currentPage Hok) as (Hs & Hend & _);
      [lia..|].
    assert (windowLen p = maxPagesShown p) as Hlen
      by (unfold windowLen; lia).
    unfold calculatePages. rewrite basePages_seqZ, Hlen in *.
    set (s := windowStart p currentPage) in *.
    set (n := maxPagesShown p) in *.
    apply firstLastFeature_Forall.
    + right. exists 0. split; [done|lia].
    + right. exists (lastPage p). split; [done|lia].
    + destruct (ellipsisFeature_length p (arr_lit (VNum <$> seqZ s n)))
        as (He & _); rewrite arr_length_run in *; lia.
    + unfold ellipsisFeature. destruct (enableEllipsis p).
      * set (m := arr_get _ _).
        destruct (frontEllipsis_length p m (arr_lit (VNum <$> seqZ s n)))
          as (Hf & _); [rewrite arr_length_run; lia|].
        rewrite arr_length_run in Hf.
        apply backEllipsis_slots.
        -- lia.
        -- apply frontEllipsis_slots; lia.
        -- intros Hcount.
           rewrite (frontEllipsis_penultimate p m s n Hcount) by lia.
           right. eexists. split; [reflexivity|lia].
      * simpl. apply (Forall_impl (page_slot p)); [apply run_pages; lia|].
        apply page_slot_ok.
Qed.

Lemma calculatePages_slots_witness :
  Forall (slot_ok (usePagination (PaginationOptions 20 None None)))
    (elems (calculatePages (usePagination (PaginationOptions 20 None None)) 10)).
Proof.
  apply (calculatePages_slots (PaginationOptions 20 None None));
    [constructor|by vm_compute..].
Defined.

(** X8: with the ellipsis feature off, [maxPagesShown >= 1] and the current
    page in [[0, lastPage]], the returned window has
    [min maxPagesShown totalPages] slots and every one of them is a page of
    [[0, lastPage]]: no marker is ever produced. *)
Theorem calculatePages_without_ellipsis o p currentPage :
  reachable o p →
  enableEllipsis p = false →
  1 ≤ maxPagesShown p →
  0 ≤ currentPage ≤ lastPage p →
  Forall (page_slot p) (elems (calculatePages p currentPage))
  ∧ arr_length (calculatePages p currentPage)
    = Z.min (maxPagesShown p) (totalPages p).
Proof.
  intros Hreach Hoff Hmax Hcur. pose proof (reachable_ok _ _ Hreach) as Hok.
  pose proof Hok as (Htot & Hlast & Hmid).
  destruct (calculatePages_length_bounds p currentPage Hok Hmax)
    as (_ & _ & _ & Hlen & _).
  split; [|by apply Hlen].
  destruct (windowStart_bounds p currentPage Hok) as (Hs & Hend & _);
    [lia..|].
  unfold calculatePages, ellipsisFeature. rewrite Hoff, basePages_seqZ.
  apply firstLastFeature_Forall.
  - exists 0. split; [done|lia].
  - exists (lastPage p). split; [done|lia].
  - rewrite arr_length_run. unfold windowLen. lia.
  - simpl. by apply run_pages.
Qed.

Lemma calculatePages_without_ellipsis_witness :
  let o := PaginationOptions 20 None
             (Some (EllipsisOptions (Some false) None None None None)) in
  Forall (page_slot (usePagination o)) (elems (calculatePages (usePagination o) 10)).
Proof.
  intros o.
  apply (calculatePages_without_ellipsis o (usePagination o) 10);
    [constructor|reflexivity|by vm_compute..].
Defined.

(** ** Clicking the markers of the window *)

(** A slot of the window after the first/last feature is page 0, page
    [lastPage], or the slot that stood there before. *)
Lemma firstLastFeature_lookup p a i v :
  1 ≤ arr_length a →
  elems (firstLastFeature p a) !! i = Some v →
  v = VNum 0 ∨ v = VNum (lastPage p) ∨ elems a !! i = Some v.
Proof.
  intros Hlen. destruct (enableFirstLast p) eqn:Hfl.
  - rewrite firstLastFeature_elems by done.
    rewrite !list_lookup_insert. repeat case_decide; intros ?; simplify_eq; auto.
  - unfold firstLastFeature. rewrite Hfl. auto.
Qed.

(** On page 0 no marker stands before [middleIndex]; from [middleIndex] on
    a marker stands only when more than [middleIndex] pages follow the
    current page. *)
Lemma calculatePages_marker_side p currentPage (i : nat) :
  state_ok p →
  4 ≤ maxPagesShown p →
  0 ≤ currentPage ≤ lastPage p →
  elems (calculatePages p currentPage) !! i = Some ELLIPSIS →
  (Z.of_nat i < middleIndex p → 0 < currentPage)
  ∧ (middleIndex p ≤ Z.of_nat i →
     2 ≤ middleIndex p ∧ currentPage + middleIndex p < lastPage p).
Proof.
  intros Hok Hmax Hcur Hmark.
  destruct (decide (totalPages p ≤ maxPagesShown p)) as [Hsmall|Hbig].
  { rewrite calculatePages_small in Hmark by done. simpl in Hmark.
    apply list_lookup_fmap_Some in Hmark as (? & ? & ?). done. }
  destruct (windowStart_cases p currentPage Hok) as (Hlen & Hcase); [lia..|].
  destruct Hok as (Htot & Hlast & Hmid).
  pose proof (half_bounds (maxPagesShown p)) as Hhalf.
  unfold calculatePages in Hmark. rewrite basePages_seqZ, Hlen in Hmark.
  set (s := windowStart p currentPage) in *.
  set (n := maxPagesShown p) in *. set (run := arr_lit _) in *.
  assert (length (elems run) = Z.to_nat n) as Hrun.
  { unfold run. simpl. by rewrite length_fmap, length_seqZ. }
  assert (∀ (j : nat) v, elems run !! j = Some v → v ≠ ELLIPSIS) as Hnum.
  { intros j v (? & -> & _)%list_lookup_fmap_Some. done. }
  assert (1 ≤ arr_length (ellipsisFeature p run)) as Hlen'.
  { destruct (ellipsisFeature_length p run) as (He & _);
      unfold arr_length in *; lia. }
  apply firstLastFeature_lookup in Hmark as [?|[?|Hmark]]; [done..| |done].
  unfold ellipsisFeature in Hmark.
  destruct (enableEllipsis p); [|by apply Hnum in Hmark].
  assert (arr_get run (floor_half (arr_length run))
          = VNum (s + middleIndex p)) as Hm.
  { unfold arr_length. rewrite Hrun, Z2Nat.id by lia. unfold floor_half, run.
    rewrite arr_get_run by (fold n in Hmid; lia). by rewrite Hmid. }
  rewrite Hm in Hmark. set (m := VNum (s + middleIndex p)) in *.
  split.
  - intros Hi. destruct (decide (currentPage = 0)) as [->|]; [|lia].
    exfalso. assert (s = 0) as Hs by (destruct Hcase as [?|[?|?]]; lia).
    rewrite (frontEllipsis_idle p m run) in Hmark
      by (unfold m, js_gt, js_sub, js_lt; simpl;
          apply bool_decide_eq_false_2; lia).
    rewrite backEllipsis_lookup in Hmark by lia.
    by apply Hnum in Hmark.
  - intros Hi. split; [fold n in Hmid; lia|].
    destruct (decide (currentPage + middleIndex p < lastPage p)) as [|Hnear];
      [done|].
    exfalso.
    assert (lastPage p ≤ s + 2 * middleIndex p) as Hs
      by (destruct Hcase as [?|[?|?]]; lia).
    rewrite (backEllipsis_idle p m) in Hmark
      by (unfold m, js_add, js_lt; simpl; apply bool_decide_eq_false_2; lia).
    destruct (frontEllipsis_lookup p m run) as (d & _ & _ & Hfront & _);
      [unfold arr_length; lia|].
    rewrite Hfront in Hmark by (fold n in Hmid; lia).
    by apply Hnum in Hmark.
Qed.

(** X9: with [maxPagesShown >= 4], [enableEllipsisClick] on and the current
    page in [[0, lastPage]], a click on any marker of the returned window,
    passed with its own index, resolves to a page of [[0, lastPage]] other
    than the current one: before it for a marker before [middleIndex],
    after it for a marker from [middleIndex] on. *)
Theorem marker_click_moves o p currentPage (i : nat) :
  reachable o p →
  4 ≤ maxPagesShown p →
  enableEllipsisClick p = true →
  0 ≤ currentPage ≤ lastPage p →
  elems (calculatePages p currentPage) !! i = Some ELLIPSIS →
  ∃ target,
    calculatePageClick p currentPage ELLIPSIS (Z.of_nat i) = VNum target
    ∧ 0 ≤ target ≤ lastPage p
    ∧ target ≠ currentPage
    ∧ (Z.of_nat i < middleIndex p → target < currentPage)
    ∧ (middleIndex p ≤ Z.of_nat i → currentPage < target).
Proof.
  intros Hreach Hmax Hclick Hcur Hmark.
  pose proof (reachable_ok _ _ Hreach) as Hok.
  destruct (calculatePages_marker_side p currentPage i Hok Hmax Hcur Hmark)
    as [Hfront Hback].
  pose proof (floor_half_spec currentPage).
  pose proof (back_target_cases currentPage (lastPage p)) as Htarget.
  simpl in Htarget.
  unfold calculatePageClick. simpl. rewrite Hclick.
  case_bool_decide; eexists; (split; [done|]); lia.
Qed.

Lemma marker_click_moves_witness :
  let p := usePagination (PaginationOptions 20 None None) in
  ∃ target,
    calculatePageClick p 10 ELLIPSIS 5 = VNum target
    ∧ 0 ≤ target ≤ lastPage p
    ∧ target ≠ 10.
Proof.
  intros p.
  destruct (marker_click_moves (PaginationOptions 20 None None) p 10 5)
    as (target & Heq & Hrange & Hne & _);
    [constructor|by vm_compute|reflexivity|by vm_compute|reflexivity|].
  by exists target.
Defined.

(** ** The pages of the window in ascending order *)

Lemma run_lookup_Some s n (i : nat) v :
  elems (arr_lit (VNum <$> seqZ s n)) !! i = Some v →
  v = VNum (s + Z.of_nat i) ∧ Z.of_nat i < n.
Proof.
  simpl. intros (x & -> & Hx)%list_lookup_fmap_Some.
  apply lookup_seqZ in Hx as [-> ?]. done.
Qed.

Lemma frontEllipsis_interior p s n :
  enableFirstLast p = true →
  2 ≤ n → 0 ≤ s → s + n - 1 ≤ lastPage p →
  n `div` 2 = middleIndex p →
  let a := frontEllipsis p (VNum (s + middleIndex p))
             (arr_lit (VNum <$> seqZ s n)) in
  ∃ d : nat,
    length (elems a) = (Z.to_nat n + d)%nat
    ∧ elems a !! 0%nat = Some (VNum s)
    ∧ interior_ok p s d (elems a).
Proof.
  intros Hfl Hn Hs Hend Hhalf. set (run := arr_lit _).
  assert (length (elems run) = Z.to_nat n) as Hrun.
  { unfold run. simpl. by rewrite length_fmap, length_seqZ. }
  assert (∀ (i : nat) v, elems run !! i = Some v →
            v = VNum (s + Z.of_nat i) ∧ Z.of_nat i < n) as Hall.
  { intros i v Hv. by apply run_lookup_Some. }
  assert (elems run !! 0%nat = Some (VNum s)) as Hzero.
  { unfold run. rewrite run_lookup by lia. do 2 f_equal. lia. }
  assert (arr_get run 0 = VNum s) as Hget0.
  { unfold run. rewrite arr_get_run by lia. f_equal. lia. }
  assert (arr_get run 1 = VNum (s + 1)) as Hget1.
  { unfold run. by rewrite arr_get_run by lia. }
  clearbody run.
  assert (interior_ok p s 0 (elems run)) as Hbase.
  { intros i v [Hv Hi]%Hall Hpos Hlt. rewrite Hrun in Hlt.
    simplify_eq. lia. }
  simpl. unfold frontEllipsis. rewrite Hfl.
  destruct (js_gt _ _); [|exists 0%nat; rewrite Hrun; split; [lia|done]].
  destruct (ellipsisCountsAsPage p).
  - exists 0%nat. rewrite arr_set_inside by (unfold arr_length; lia).
    change (Z.to_nat 1) with 1%nat. rewrite length_insert, Hrun.
    split; [lia|]. split; [by rewrite list_lookup_insert_ne by lia|].
    intros i v Hv Hi Hlen. rewrite length_insert in Hlen.
    rewrite list_lookup_insert in Hv. case_decide; [done|].
    by apply Hbase.
  - exists 1%nat. rewrite Hget0, Hget1. simpl.
    rewrite arr_slice_tail by (unfold arr_length; lia).
    rewrite length_drop, Hrun. split; [lia|]. split; [done|].
    intros i v Hv Hi Hlen. simpl in Hlen. rewrite length_drop, Hrun in Hlen.
    destruct i as [|[|i]]; [lia| |].
    + simpl in Hv. case_match eqn:Hcond; [|done].
      apply andb_prop in Hcond as [_ Heq].
      apply bool_decide_eq_true_1 in Heq.
      unfold js_sub in Hv. simpl in Hv. simplify_eq. lia.
    + simpl in Hv. rewrite lookup_drop in Hv.
      apply Hall in Hv as [Hv _]. simplify_eq. lia.
Qed.

Lemma backEllipsis_interior p s n (d : nat) a :
  enableFirstLast p = true →
  2 ≤ n → 0 ≤ s → n ≤ 2 * middleIndex p + 1 →
  length (elems a) = (Z.to_nat n + d)%nat →
  elems a !! 0%nat = Some (VNum s) →
  interior_ok p s d (elems a) →
  interior_ok p s d (elems (backEllipsis p (VNum (s + middleIndex p)) a)).
Proof.
  intros Hfl Hn Hs Hodd Hlen Hzero Hin. unfold backEllipsis. rewrite Hfl.
  destruct (js_lt _ _); [|done].
  destruct (ellipsisCountsAsPage p).
  - rewrite arr_set_inside by (unfold arr_length; lia).
    intros i v Hv Hi Hi'. rewrite length_insert in Hi'.
    rewrite list_lookup_insert in Hv. case_decide; [done|].
    by apply Hin.
  - simpl. rewrite arr_slice_init by (unfold arr_length; lia).
    intros i v Hv Hi Hi'.
    rewrite length_app, length_take in Hi'. simpl in Hi'.
    destruct (decide (i < length (elems a) - 1)%nat) as [Hlt|Hge].
    + rewrite lookup_app_l in Hv by (rewrite length_take; lia).
      rewrite lookup_take_lt in Hv by lia. apply Hin; [done|lia..].
    + rewrite lookup_app_r in Hv by (rewrite length_take; lia).
      rewrite length_take in Hv.
      replace (i - (length (elems a) - 1) `min` length (elems a))%nat
        with 0%nat in Hv by lia.
      simpl in Hv. case_match eqn:Hcond; [|done].
      apply andb_prop in Hcond as [_ Heq].
      apply bool_decide_eq_true_1 in Heq.
      unfold arr_get, arr_length in Hv.
      rewrite bool_decide_eq_true_2 in Hv by lia.
      destruct (lookup_lt_is_Some_2 (elems a)
                  (Z.to_nat (Z.of_nat (length (elems a)) - 2))) as [w Hw];
        [lia|].
      rewrite Hw in Hv. simpl in Hv.
      destruct w as [w| | |]; simpl in Hv; try done.
      destruct (decide (length (elems a) = 2%nat)) as [Htwo|Hmore].
      * replace (Z.to_nat (Z.of_nat (length (elems a)) - 2)) with 0%nat in Hw
          by lia.
        rewrite Hzero in Hw. simplify_eq. lia.
      * destruct (Hin _ _ Hw) as [Hweq Hwb]; [lia..|]. simplify_eq. lia.
Qed.

(** X10: with the first/last feature on, [maxPagesShown >= 2] and the
    current page in [[0, lastPage]], the pages of the returned window stand
    in strictly ascending order: of two slots that hold a page, the later
    one holds the greater page, so no page is shown twice. *)
Theorem calculatePages_ascending o p currentPage (i j : nat) x y :
  reachable o p →
  enableFirstLast p = true →
  2 ≤ maxPagesShown p →
  0 ≤ currentPage ≤ lastPage p →
  (i < j)%nat →
  elems (calculatePages p currentPage) !! i = Some (VNum x) →
  elems (calculatePages p currentPage) !! j = Some (VNum y) →
  x < y.
Proof.
  intros Hreach Hfl Hmax Hcur Hij Hx Hy.
  pose proof (reachable_ok _ _ Hreach) as Hok.
  destruct (decide (totalPages p ≤ maxPagesShown p)) as [Hsmall|Hbig].
  { rewrite calculatePages_small in Hx, Hy by done.
    apply run_lookup_Some in Hx as [Hx _], Hy as [Hy _]. simplify_eq. lia. }
  destruct (windowStart_bounds p currentPage Hok) as (Hs & Hend & _);
    [lia..|].
  pose proof Hok as (Htot & Hlast & Hmid).
  pose proof (half_bounds (maxPagesShown p)) as Hhalf.
  assert (windowLen p = maxPagesShown p) as Hlen by (unfold windowLen; lia).
  unfold calculatePages in Hx, Hy. rewrite basePages_seqZ, Hlen in *.
  set (s := windowStart p currentPage) in *.
  set (n := maxPagesShown p) in *. set (run := arr_lit _) in *.
  assert (∃ d : nat,
            (2 ≤ length (elems (ellipsisFeature p run)))%nat
            ∧ interior_ok p s d (elems (ellipsisFeature p run)))
    as (d & Htwo & Hin).
  { unfold ellipsisFeature. destruct (enableEllipsis p).
    - assert (arr_get run (floor_half (arr_length run))
              = VNum (s + middleIndex p)) as ->.
      { unfold run. rewrite arr_length_run, Z.max_l by lia.
        unfold floor_half. rewrite arr_get_run by lia. by rewrite Hmid. }
      destruct (frontEllipsis_interior p s n) as (d & Hd & Hzero & Hin);
        [done|lia..|done|].
      fold run in Hd, Hzero, Hin. exists d. split.
      + pose proof (backEllipsis_length p (VNum (s + middleIndex p))
                      (frontEllipsis p (VNum (s + middleIndex p)) run))
          as [Hb _]; unfold arr_length in *; lia.
      + by apply (backEllipsis_interior p s n d); try lia.
    - exists 0%nat. split.
      + unfold run. simpl. rewrite length_fmap, length_seqZ. lia.
      + intros k v [Hv Hk]%run_lookup_Some Hpos Hlt.
        unfold run in Hlt. simpl in Hlt.
        rewrite length_fmap, length_seqZ in Hlt. simplify_eq. lia. }
  set (a := ellipsisFeature p run) in *.
  pose proof (lookup_lt_Some _ _ _ Hx) as Hi.
  pose proof (lookup_lt_Some _ _ _ Hy) as Hj.
  rewrite firstLastFeature_elems in Hx, Hy, Hi, Hj
    by (unfold arr_length; done || lia).
  unfold arr_length in Hx, Hy.
  rewrite !list_lookup_insert, !length_insert in Hx, Hy.
  rewrite !length_insert in Hi, Hj.
  repeat case_decide; simplify_eq; try lia.
  - apply Hin in Hx; lia.
  - apply Hin in Hy; lia.
  - apply Hin in Hx, Hy; lia.
Qed.

Lemma calculatePages_ascending_witness :
  let window :=
    elems (calculatePages (usePagination (PaginationOptions 20 None None)) 10) in
  window !! 2%nat = Some (VNum 9) ∧ window !! 4%nat = Some (VNum 11) ∧ 9 < 11.
Proof.
  intros window. split; [reflexivity|]. split; [reflexivity|].
  apply (calculatePages_ascending (PaginationOptions 20 None None)
           (usePagination (PaginationOptions 20 None None)) 10 2 4);
    [constructor|reflexivity|by vm_compute|by vm_compute|lia
    |reflexivity|reflexivity].
Defined.

(** ** The window with the ellipsis counted as a page *)

Lemma run_split s n :
  4 ≤ n →
  VNum <$> seqZ s n
  = VNum s :: VNum (s + 1)
    :: (VNum <$> seqZ (s + 2) (n - 4)) ++ [VNum (s + n - 2); VNum (s + n - 1)].
Proof.
  intros Hn. replace n with (2 + ((n - 4) + 2)) at 1 by lia.
  rewrite seqZ_app, seqZ_app by lia. rewrite !fmap_app.
  replace (s + 2 + (n - 4)) with (s + n - 2) by lia.
  rewrite (seqZ_cons s 2), (seqZ_cons (Z.succ s)) by lia.
  rewrite (seqZ_cons (s + n - 2) 2), (seqZ_cons (Z.succ (s + n - 2))) by lia.
  change (Z.pred (Z.pred 2)) with 0. rewrite !seqZ_nil by lia. simpl.
  repeat f_equal; lia.
Qed.

(** X11: with the options the source defaults to (ellipsis on and counted
    as a page, first/last on), [maxPagesShown >= 4] and more pages than
    slots, the window of a current page in [[0, lastPage]] is page 0, then
    the front marker if the current page is past [middleIndex] and page 1
    otherwise, then the pages of the base window but its first two and last
    two, then the back marker if the middle page of the base window is more
    than [middleIndex] pages before [lastPage] and the last but one page of
    the base window otherwise, then [lastPage]. *)
Theorem calculatePages_counted_shape o p currentPage :
  reachable o p →
  enableEllipsis p = true →
  ellipsisCountsAsPage p = true →
  enableFirstLast p = true →
  4 ≤ maxPagesShown p →
  maxPagesShown p < totalPages p →
  0 ≤ currentPage ≤ lastPage p →
  ∃ s,
    basePages p currentPage = seqZ s (maxPagesShown p)
    ∧ (0 < s ↔ middleIndex p < currentPage)
    ∧ (s + 2 * middleIndex p < lastPage p
       ↔ currentPage + middleIndex p < lastPage p
         ∧ 2 * middleIndex p < lastPage p)
    ∧ elems (calculatePages p currentPage)
      = VNum 0
        :: (if bool_decide (0 < s) then ELLIPSIS else VNum 1)
        :: (VNum <$> seqZ (s + 2) (maxPagesShown p - 4))
        ++ [if bool_decide (s + 2 * middleIndex p < lastPage p)
            then ELLIPSIS else VNum (s + maxPagesShown p - 2);
            VNum (lastPage p)].
Proof.
  intros Hreach Hon Hcount Hfl Hmax Hbig Hcur.
  pose proof (reachable_ok _ _ Hreach) as Hok.
  destruct (windowStart_cases p currentPage Hok) as (Hlen & Hcase); [lia..|].
  destruct Hok as (Htot & Hlast & Hmid).
  pose proof (half_bounds (maxPagesShown p)) as Hhalf.
  exists (windowStart p currentPage).
  unfold calculatePages. rewrite basePages_seqZ, Hlen.
  set (s := windowStart p currentPage) in *.
  set (n := maxPagesShown p) in *.
  split; [done|]. split; [destruct Hcase as [?|[?|?]]; lia|].
  split; [destruct Hcase as [?|[?|?]]; lia|].
  set (run := arr_lit _).
  assert (length (elems run) = Z.to_nat n) as Hrun.
  { unfold run. simpl. by rewrite length_fmap, length_seqZ. }
  assert (arr_get run (floor_half (arr_length run))
          = VNum (s + middleIndex p)) as Hm.
  { unfold arr_length. rewrite Hrun, Z2Nat.id by lia. unfold floor_half, run.
    rewrite arr_get_run by (fold n in Hmid; lia). by rewrite Hmid. }
  assert (elems (ellipsisFeature p run)
          = (if bool_decide (s + 2 * middleIndex p < lastPage p)
             then <[Z.to_nat (n - 2):=ELLIPSIS]> else id)
              ((if bool_decide (0 < s) then <[1%nat:=ELLIPSIS]> else id)
                 (elems run))) as Hfeature.
  { unfold ellipsisFeature. rewrite Hon, Hm.
    assert (elems (frontEllipsis p (VNum (s + middleIndex p)) run)
            = (if bool_decide (0 < s) then <[1%nat:=ELLIPSIS]> else id)
                (elems run)) as Hfront.
    { unfold frontEllipsis, js_gt, js_sub, js_lt. simpl. rewrite Hcount, Hfl.
      repeat case_bool_decide; try lia; [|done].
      by rewrite arr_set_inside by (unfold arr_length; lia). }
    assert (length (elems (frontEllipsis p (VNum (s + middleIndex p)) run))
            = Z.to_nat n) as Hflen.
    { rewrite Hfront. case_bool_decide; simpl; by rewrite ?length_insert. }
    rewrite <- Hfront.
    unfold backEllipsis, js_add, js_lt. simpl. rewrite Hcount, Hfl.
    repeat case_bool_decide; try lia; try done;
      rewrite arr_set_inside by (unfold arr_length; lia);
      unfold arr_length; rewrite Hflen; f_equal; lia. }
  assert (length (elems (ellipsisFeature p run)) = Z.to_nat n) as Hflen.
  { rewrite Hfeature.
    repeat case_bool_decide; simpl; by rewrite ?length_insert. }
  rewrite firstLastFeature_elems by (unfold arr_length; done || lia).
  unfold arr_length. rewrite Hflen, Hfeature.
  unfold run. simpl elems. rewrite run_split by lia.
  assert (length (VNum <$> seqZ (s + 2) (n - 4)) = Z.to_nat (n - 4)) as Hmiddle.
  { by rewrite length_fmap, length_seqZ. }
  replace (Z.to_nat (Z.of_nat (Z.to_nat n) - 1))
    with (S (S (length (VNum <$> seqZ (s + 2) (n - 4)) + 1))) by lia.
  replace (Z.to_nat (n - 2))
    with (S (S (length (VNum <$> seqZ (s + 2) (n - 4)) + 0))) by lia.
  repeat case_bool_decide; simpl; rewrite ?insert_app_r; simpl;
    repeat f_equal; lia.
Qed.

Lemma calculatePages_counted_shape_witness :
  ∃ s,
    basePages (usePagination (PaginationOptions 20 None None)) 10 = seqZ s 7
    ∧ elems (calculatePages (usePagination (PaginationOptions 20 None None)) 10)
      = VNum 0
        :: (if bool_decide (0 < s) then ELLIPSIS else VNum 1)
        :: (VNum <$> seqZ (s + 2) 3)
        ++ [if bool_decide (s + 2 * 3 < 19) then ELLIPSIS else VNum (s + 7 - 2);
            VNum 19].
Proof.
  destruct (calculatePages_counted_shape (PaginationOptions 20 None None)
              (usePagination (PaginationOptions 20 None None)) 10)
    as (s & Hbase & _ & _ & Hshape);
    [constructor|reflexivity|reflexivity|reflexivity|by vm_compute..|].
  exists s. split; [exact Hbase|exact Hshape].
Defined.

(** ** The window with the ellipsis not counted as a page *)

Lemma run_ends s n :
  2 ≤ n →
  VNum <$> seqZ s n
  = VNum s :: (VNum <$> seqZ (s + 1) (n - 2)) ++ [VNum (s + n - 1)].
Proof.
  intros Hn. replace n with (1 + ((n - 2) + 1)) at 1 by lia.
  rewrite seqZ_app, seqZ_app by lia. rewrite !fmap_app.
  replace (s + 1 + (n - 2)) with (s + n - 1) by lia.
  rewrite (seqZ_cons s 1), (seqZ_cons (s + n - 1) 1) by lia.
  change (Z.pred 1) with 0. by rewrite !seqZ_nil by lia.
Qed.

(** Overwriting the two ends of a list. *)
Lemma insert_ends (x y a b : value) l :
  <[Z.to_nat (Z.of_nat (length (x :: l ++ [y])) - 1):=b]>
    (<[0%nat:=a]> (x :: l ++ [y]))
  = a :: l ++ [b].
Proof.
  simpl. rewrite length_app. simpl.
  replace (Z.to_nat (Z.of_nat (S (length l + 1)) - 1))
    with (S (length l + 0)) by lia.
  simpl. by rewrite insert_app_r.
Qed.

(** X12: with the ellipsis on but not counted as a page, first/last on,
    [maxPagesShown >= 3] and more pages than slots, the window of a current
    page in [[0, lastPage]] is page 0, the pages of the base window but its
    first and last, and [lastPage], with one slot inserted after page 0
    when the base window does not start at page 0 and one before [lastPage]
    when its middle page is more than [middleIndex] pages before
    [lastPage].  An inserted slot is the marker, unless
    [showEllipsisIfOnlyOnePage] is on and a single page is hidden on that
    side: it then holds that page, so that the pages run on without a
    gap. *)
Theorem calculatePages_inserted_shape o p currentPage :
  reachable o p →
  enableEllipsis p = true →
  ellipsisCountsAsPage p = false →
  enableFirstLast p = true →
  3 ≤ maxPagesShown p →
  maxPagesShown p < totalPages p →
  0 ≤ currentPage ≤ lastPage p →
  ∃ s,
    basePages p currentPage = seqZ s (maxPagesShown p)
    ∧ elems (calculatePages p currentPage)
      = VNum 0
        :: (if bool_decide (0 < s)
            then [if showEllipsisIfOnlyOnePage p && bool_decide (s = 1)
                  then VNum 1 else ELLIPSIS]
            else [])
        ++ (VNum <$> seqZ (s + 1) (maxPagesShown p - 2))
        ++ (if bool_decide (s + 2 * middleIndex p < lastPage p)
            then [if showEllipsisIfOnlyOnePage p
                     && bool_decide (s + 2 * middleIndex p = lastPage p - 1)
                  then VNum (s + maxPagesShown p - 1) else ELLIPSIS]
            else [])
        ++ [VNum (lastPage p)].
Proof.
  intros Hreach Hon Hcount Hfl Hmax Hbig Hcur.
  pose proof (reachable_ok _ _ Hreach) as Hok.
  destruct (windowStart_cases p currentPage Hok) as (Hlen & _); [lia..|].
  destruct Hok as (Htot & Hlast & Hmid).
  pose proof (half_bounds (maxPagesShown p)) as Hhalf.
  exists (windowStart p currentPage).
  unfold calculatePages. rewrite basePages_seqZ, Hlen.
  set (s := windowStart p currentPage) in *.
  set (n := maxPagesShown p) in *.
  split; [done|].
  set (run := arr_lit _).
  set (front := if bool_decide (0 < s)
                then [if showEllipsisIfOnlyOnePage p && bool_decide (s = 1)
                      then VNum 1 else ELLIPSIS]
                else []).
  set (back := if bool_decide (s + 2 * middleIndex p < lastPage p)
               then [if showEllipsisIfOnlyOnePage p
                        && bool_decide (s + 2 * middleIndex p = lastPage p - 1)
                     then VNum (s + n - 1) else ELLIPSIS]
               else []).
  set (middle := VNum <$> seqZ (s + 1) (n - 2)).
  assert (elems run = VNum s :: middle ++ [VNum (s + n - 1)]) as Hrun.
  { unfold run. simpl. by apply run_ends; lia. }
  assert (arr_length run = n) as Hrunlen.
  { unfold run. rewrite arr_length_run. lia. }
  assert (arr_get run (floor_half (arr_length run))
          = VNum (s + middleIndex p)) as Hm.
  { rewrite Hrunlen. unfold floor_half, run.
    rewrite arr_get_run by (fold n in Hmid; lia). by rewrite Hmid. }
  unfold ellipsisFeature. rewrite Hon, Hm. set (m := VNum (s + middleIndex p)).
  pose proof (frontEllipsis_penultimate p m s n Hcount) as Hpen.
  simpl in Hpen. fold run in Hpen. specialize (Hpen ltac:(lia)).
  assert (elems (frontEllipsis p m run)
          = VNum s :: (front ++ middle) ++ [VNum (s + n - 1)]) as Hfront.
  { unfold frontEllipsis, m, js_gt, js_sub, js_lt, front. simpl.
    rewrite Hcount, Hfl.
    replace (s + middleIndex p - middleIndex p) with s by lia.
    case_bool_decide; [|done]. simpl.
    rewrite arr_slice_tail by lia. rewrite Hrun. simpl.
    unfold run. rewrite !arr_get_run by lia.
    replace (s + 0) with s by lia.
    repeat f_equal. case_bool_decide; [|by rewrite !andb_false_r].
    destruct (showEllipsisIfOnlyOnePage p); simpl; [|done].
    f_equal. lia. }
  set (a := frontEllipsis p m run) in *.
  assert (elems (backEllipsis p m a)
          = VNum s :: (front ++ middle ++ back) ++ [VNum (s + n - 1)]) as Hback.
  { unfold backEllipsis, m, js_add, js_lt, back. simpl. rewrite Hcount, Hfl.
    replace (s + middleIndex p + middleIndex p)
      with (s + 2 * middleIndex p) by lia.
    case_bool_decide;
      [|by rewrite Hfront, app_nil_r]. simpl.
    assert (1 ≤ arr_length a) as Hone
      by (unfold arr_length; rewrite Hfront; simpl; lia).
    rewrite arr_slice_init by done. rewrite Hpen.
    assert (arr_get a (arr_length a - 1) = VNum (s + n - 1)) as ->.
    { unfold arr_get, arr_length in *. rewrite bool_decide_eq_true_2 by lia.
      replace (Z.to_nat (Z.of_nat (length (elems a)) - 1))
        with (pred (length (elems a))) by lia.
      rewrite <- last_lookup, Hfront.
      by rewrite last_cons, last_snoc. }
    rewrite Hfront. simpl. rewrite length_app. simpl.
    rewrite Nat.sub_0_r, Nat.add_1_r. simpl.
    rewrite take_app_length. rewrite <- !app_assoc. simpl.
    repeat f_equal. case_bool_decide; [|by rewrite !andb_false_r].
    destruct (showEllipsisIfOnlyOnePage p); simpl; [|done].
    f_equal. lia. }
  rewrite firstLastFeature_elems
    by (done || unfold arr_length; rewrite Hback; simpl; lia).
  unfold arr_length. rewrite Hback, insert_ends.
  by rewrite <- !app_assoc.
Qed.

Lemma calculatePages_inserted_shape_witness :
  let o := PaginationOptions 9 (Some 5)
             (Some (EllipsisOptions None (Some false) None None None)) in
  elems (calculatePages (usePagination o) 3)
  = [VNum 0; VNum 1; VNum 2; VNum 3; VNum 4; ELLIPSIS; VNum 8].
Proof.
  intros o.
  destruct (calculatePages_inserted_shape o (usePagination o) 3)
    as (s & Hbase & ->);
    [constructor|reflexivity|reflexivity|reflexivity|by vm_compute..|].
  vm_compute in Hbase. by simplify_eq.
Defined.

(** X13: with the ellipsis on and counted as a page, first/last off,
    [maxPagesShown >= 2] and more pages than slots, the window of a current
    page in [[0, lastPage]] is the base window with its first slot turned
    into the marker when it does not start at page 0, and its last slot
    turned into the marker when its middle page is more than [middleIndex]
    pages before [lastPage]; nothing else changes. *)
Theorem calculatePages_unpinned_shape o p currentPage :
  reachable o p →
  enableEllipsis p = true →
  ellipsisCountsAsPage p = true →
  enableFirstLast p = false →
  2 ≤ maxPagesShown p →
  maxPagesShown p < totalPages p →
  0 ≤ currentPage ≤ lastPage p →
  ∃ s,
    basePages p currentPage = seqZ s (maxPagesShown p)
    ∧ elems (calculatePages p currentPage)
      = (if bool_decide (0 < s) then ELLIPSIS else VNum 0)
        :: (VNum <$> seqZ (s + 1) (maxPagesShown p - 2))
        ++ [if bool_decide (s + 2 * middleIndex p < lastPage p)
            then ELLIPSIS else VNum (s + maxPagesShown p - 1)].
Proof.
  intros Hreach Hon Hcount Hfl Hmax Hbig Hcur.
  pose proof (reachable_ok _ _ Hreach) as Hok.
  destruct (windowStart_bounds p currentPage Hok) as (Hs & _); [lia..|].
  destruct (windowStart_cases p currentPage Hok) as (Hlen & _); [lia..|].
  destruct Hok as (Htot & Hlast & Hmid).
  pose proof (half_bounds (maxPagesShown p)) as Hhalf.
  exists (windowStart p currentPage).
  unfold calculatePages. rewrite basePages_seqZ, Hlen.
  set (s := windowStart p currentPage) in *.
  set (n := maxPagesShown p) in *.
  split; [done|].
  set (run := arr_lit _). set (middle := VNum <$> seqZ (s + 1) (n - 2)).
  assert (elems run = VNum s :: middle ++ [VNum (s + n - 1)]) as Hrun.
  { unfold run. simpl. by apply run_ends; lia. }
  assert (arr_length run = n) as Hrunlen.
  { unfold run. rewrite arr_length_run. lia. }
  assert (length middle = Z.to_nat (n - 2)) as Hmiddle.
  { unfold middle. by rewrite length_fmap, length_seqZ. }
  assert (arr_get run (floor_half (arr_length run))
          = VNum (s + middleIndex p)) as Hm.
  { rewrite Hrunlen. unfold floor_half, run.
    rewrite arr_get_run by (fold n in Hmid; lia). by rewrite Hmid. }
  unfold firstLastFeature, ellipsisFeature. rewrite Hfl, Hon, Hm.
  set (first := if bool_decide (0 < s) then ELLIPSIS else VNum 0).
  assert (elems (frontEllipsis p (VNum (s + middleIndex p)) run)
          = first :: middle ++ [VNum (s + n - 1)]) as Hfront.
  { unfold frontEllipsis, js_gt, js_sub, js_lt, first. simpl.
    rewrite Hcount, Hfl.
    replace (s + middleIndex p - middleIndex p) with s by lia.
    case_bool_decide.
    - rewrite arr_set_inside by lia. by rewrite Hrun.
    - rewrite Hrun. do 2 f_equal. lia. }
  set (a := frontEllipsis p (VNum (s + middleIndex p)) run) in *.
  unfold backEllipsis, js_add, js_lt. simpl. rewrite Hcount, Hfl.
  replace (s + middleIndex p + middleIndex p)
    with (s + 2 * middleIndex p) by lia.
  case_bool_decide; [|done].
  assert (arr_length a = n) as Halen.
  { unfold arr_length. rewrite Hfront. simpl. rewrite length_app, Hmiddle.
    simpl. lia. }
  rewrite arr_set_inside by lia. rewrite Halen, Hfront.
  replace (Z.to_nat (n - 1)) with (S (length middle + 0)) by lia.
  simpl. by rewrite insert_app_r.
Qed.

Lemma calculatePages_unpinned_shape_witness :
  let o := PaginationOptions 20 None
             (Some (EllipsisOptions None None None None (Some false))) in
  elems (calculatePages (usePagination o) 10)
  = [ELLIPSIS; VNum 8; VNum 9; VNum 10; VNum 11; VNum 12; ELLIPSIS].
Proof.
  intros o.
  destruct (calculatePages_unpinned_shape o (usePagination o) 10)
    as (s & Hbase & ->);
    [constructor|reflexivity|reflexivity|reflexivity|by vm_compute..|].
  vm_compute in Hbase. by simplify_eq.
Defined.
